(** * make-component: lifecycle base class, form binding and registrar

    A shallow embedding of [index.js]: the registrar [makewc], the class
    [Base] (lifecycle hooks [pre], [template], [init], [setupError], the
    guarded [render] and the helper [popBubble]) and the class [FormBase]
    (the [data] accessor pair, the change/input [handler] with its timer and
    the default [handleChange]).

    The host platform is modelled only as far as the code touches it:
    JavaScript values with [typeof] and truthiness, a heap of plain objects
    (the backing data object is shared by reference; a plain object is an
    extensible ordinary object with writable data properties that inherits
    from [Object.prototype], as an object literal is), the promise chain built
    by [connectedCallback], the timers armed by [setTimeout], and a log of
    observable effects.

    Conventions. The hooks [pre] and [init] are asynchronous, as the source
    requires; when and how their promises settle is an input of a run, so
    every overriding hook is covered. The other overridable methods
    ([template], [setupError], [handleChange]) are given by what their body
    outputs and whether it returns or throws. Code outside the classes reaches
    an instance through its public surface only: it calls [render()], assigns
    [shadow] or [data], dispatches events; it does not write
    [___CAN_RENDER___] or [_data] directly. The objects that are assigned to
    [data] are plain objects; frozen or sealed objects, objects with setters
    of their own and proxies are not modelled. *)

From Stdlib Require Import ZArith Ascii String List Bool Lia.
From stdpp Require Import base option list gmap strings.

Local Open Scope string_scope.
Local Open Scope nat_scope.
Local Open Scope list_scope.

(** ** JavaScript values *)

Definition loc := positive.
Definition node := nat.

(** A Number is an IEEE double: not-a-number, an infinity, negative zero,
    or [m * 2^e] for integers [m] and [e]. Every finite double other than
    negative zero has this form; positive zero is [Dyadic 0 e]. *)
Inductive JSNumber : Type :=
| NaN
| Infinity (negative : bool)
| NegativeZero
| Dyadic (m e : Z).

Global Instance JSNumber_eq_dec : EqDecision JSNumber.
Proof. solve_decision. Defined.

Inductive JSValue : Type :=
| VUndefined
| VNull
| VBoolean (b : bool)
| VNumber (n : JSNumber)
| VString (s : string)
| VSymbol (k : nat)
| VBigInt (n : Z)
| VFunction (l : loc)
| VObject (l : loc).

Global Instance JSValue_eq_dec : EqDecision JSValue.
Proof. solve_decision. Defined.

(** The [typeof] operator. [typeof null] is ["object"]. *)
Definition typeof (v : JSValue) : string :=
  match v with
  | VUndefined => "undefined"
  | VNull => "object"
  | VBoolean _ => "boolean"
  | VNumber _ => "number"
  | VString _ => "string"
  | VSymbol _ => "symbol"
  | VBigInt _ => "bigint"
  | VFunction _ => "function"
  | VObject _ => "object"
  end.

(** Truthiness, as used by [if (x)] and [!x]: the falsy values are
    [undefined], [null], [false], [NaN], both zeros, [0n] and the empty
    string. *)
Definition ToBoolean (v : JSValue) : bool :=
  match v with
  | VUndefined | VNull => false
  | VBoolean b => b
  | VNumber NaN | VNumber NegativeZero => false
  | VNumber (Dyadic m _) => negb (m =? 0)%Z
  | VNumber (Infinity _) => true
  | VString s => negb (String.eqb s "")
  | VBigInt n => negb (n =? 0)%Z
  | VSymbol _ | VFunction _ | VObject _ => true
  end.

(** Things that can be thrown or be the reason of a rejected promise. *)
Inductive exn : Type :=
| TypeError (msg : string)
| Thrown (v : JSValue).

Global Instance exn_eq_dec : EqDecision exn.
Proof. solve_decision. Defined.

Inductive completion (A : Type) : Type :=
| Normal (a : A)
| Throw (e : exn).
Arguments Normal {A} a.
Arguments Throw {A} e.

(** How a hook's promise settles. *)
Inductive outcome : Type :=
| Fulfilled
| Rejected (e : exn).

Global Instance outcome_eq_dec : EqDecision outcome.
Proof. solve_decision. Defined.

(** ** DOM elements and events *)

Module Element.
(** A form control (or the component itself) as far as the handler reads
    it: its identity, its content attributes, and the [type] and [value]
    properties. *)
Record t : Type := mk {
  id : node;
  attributes : gmap string string;
  type : string;
  value : string }.

(** The [name] property of a form control reflects its [name] content
    attribute; it is the empty string when the attribute is absent. *)
Definition name (e : t) : string := default "" (attributes e !! "name").

Definition hasAttribute (e : t) (q : string) : bool :=
  bool_decide (is_Some (attributes e !! q)).
End Element.

Module Event.
Record t : Type := mk {
  type : string;
  bubbles : bool;
  cancelable : bool;
  target : option Element.t }.

(** The [EventInit] dictionary of the DOM standard; every member is
    optional. *)
Record init : Type := mkInit {
  init_bubbles : option bool;
  init_cancelable : option bool }.
End Event.

(** [new Event(type, init)]: per the DOM standard [bubbles] and [cancelable]
    default to [false] when the dictionary or the member is missing, and the
    target is null until the event is dispatched. *)
Definition new_Event (type : string) (i : option Event.init) : Event.t :=
  {| Event.type := type;
     Event.bubbles := default false (i ≫= Event.init_bubbles);
     Event.cancelable := default false (i ≫= Event.init_cancelable);
     Event.target := None |}.

(** ** lit-html *)

(** The result of an [html] tagged template: its literal strings and the
    interpolated values. The templating engine itself is opaque. *)
Inductive TemplateResult : Type :=
| html (strings : list string) (values : list JSValue).

(** Where lit-html's [render] patches. *)
Inductive container : Type :=
| ShadowRoot (r : nat)
| HostElement (n : node).

(** ** Observable effects *)

(** What the body of a method may do to the outside world. *)
Inductive output : Type :=
| console_warn (msg : string)
| console_error (msg : string) (e : exn)
| stopPropagation (evt : Event.t)
| stopImmediatePropagation (evt : Event.t)
| preventDefault (evt : Event.t)
| dispatchEvent (from : node) (evt : Event.t)
| user_action (tag : string).

(** ** The registrar *)

Section Registrar.
(** The host's custom element registry and its [define] are external; a
    class reference is any value of type [C]. *)
Variables (Registry C : Type).
Variable define : string → C → Registry → Registry + exn.

(** [makewc = (tag_name, component_class) => {
       customElements.define(tag_name, component_class);
       return component_class; }] *)
Definition makewc (tag_name : string) (component_class : C)
    (customElements : Registry) : Registry * completion C :=
  match define tag_name component_class customElements with
  | inl customElements' => (customElements', Normal component_class)
  | inr e => (customElements, Throw e)
  end.
End Registrar.

(** ** A state and exception monad *)

(** A computation may change the state and either returns or throws; what
    it did to the state before throwing stays done, as in JavaScript. *)
Definition M (St A : Type) : Type := St → St * completion A.

Global Instance M_ret St : MRet (M St) := λ A a w, (w, Normal a).
Global Instance M_bind St : MBind (M St) := λ A B f c w,
  match c w with
  | (w', Normal a) => f a w'
  | (w', Throw e) => (w', Throw e)
  end.

Definition throw {St A} (e : exn) : M St A := λ w, (w, Throw e).
Definition get {St} : M St St := λ w, (w, Normal w).
Definition modify {St} (f : St → St) : M St unit := λ w, (f w, Normal tt).
(** [try c] runs [c] and hands its completion to the caller. *)
Definition try {St A} (c : M St A) : M St (completion A) :=
  λ w, (fst (c w), Normal (snd (c w))).
Definition exec {St A} (c : M St A) (w : St) : St := fst (c w).

(** ** The class [Base] *)

(** The promise chain
    [this.pre().then(f1).then(() => this.init()).catch(e => this.setupError(e))]
    of one connection. A rejection passes through the [then] reactions
    unchanged, so it is kept as "queued for the catch handler" at once. *)
Inductive chain : Type :=
| PrePending                  (* [pre()] was called, its promise is pending *)
| Then1Queued                 (* [pre] fulfilled, the first reaction is queued *)
| Then2Queued                 (* the first reaction returned, the second is queued *)
| InitPending                 (* [init()] was called, its promise is pending *)
| CatchQueued (e : exn)       (* a rejection is on its way to the catch handler *)
| Settled (r : completion unit).  (* the last promise of the chain has settled *)

Inductive lifecycle_call : Type :=
| c_pre
| c_init
| c_setupError (e : exn).

Inductive method_call : Type :=
| c_template
| c_handleChange (evt : Event.t).

(** One entry of the log: an output of a method body, a call of lit-html's
    [render], a call of an overridable method, or a call made by the promise
    chain of connection number [k]. *)
Inductive effect : Type :=
| out (o : output)
| lit_render (t : TemplateResult) (c : container)
| call (m : method_call)
| lifecycle (k : nat) (c : lifecycle_call).

(** An instance of [Base] or of a subclass: [S] holds what the subclass
    adds. [chains] has one promise chain per call of [connectedCallback];
    [log] is oldest first. *)
Record Base (S : Type) : Type := mkBase {
  self : Element.t;
  ___CAN_RENDER___ : bool;
  shadow : option nat;
  chains : list chain;
  log : list effect;
  sub : S }.
Arguments mkBase {S}.
Arguments self {S}.
Arguments ___CAN_RENDER___ {S}.
Arguments shadow {S}.
Arguments chains {S}.
Arguments log {S}.
Arguments sub {S}.

(** The methods a subclass of [Base] may override. A method body reads
    [this] and produces outputs; it returns or throws. *)
Record BaseMethods (S : Type) : Type := mkBaseMethods {
  template : Base S → list output * completion TemplateResult;
  setupError : Base S → exn → list output * completion unit }.
Arguments mkBaseMethods {S}.
Arguments template {S}.
Arguments setupError {S}.

Section BaseClass.
Context {S : Type}.

Definition with_CAN_RENDER (b : bool) (this : Base S) : Base S :=
  mkBase (self this) b (shadow this) (chains this) (log this) (sub this).
Definition with_shadow (r : option nat) (this : Base S) : Base S :=
  mkBase (self this) (___CAN_RENDER___ this) r (chains this) (log this) (sub this).
Definition with_chains (cs : list chain) (this : Base S) : Base S :=
  mkBase (self this) (___CAN_RENDER___ this) (shadow this) cs (log this) (sub this).
Definition with_log (l : list effect) (this : Base S) : Base S :=
  mkBase (self this) (___CAN_RENDER___ this) (shadow this) (chains this) l (sub this).
Definition with_sub (s : S) (this : Base S) : Base S :=
  mkBase (self this) (___CAN_RENDER___ this) (shadow this) (chains this) (log this) s.

Definition tell (es : list effect) : M (Base S) unit :=
  modify (λ this, with_log (log this ++ es) this).

(** [constructor() { super(); this.___CAN_RENDER___ = false; }] *)
Definition Base_constructor (element : Element.t) (s : S) : Base S :=
  mkBase element false None [] [] s.

(** [template(component) { console.warn(...); return html``; }] *)
Definition Base_template (component : Base S)
    : list output * completion TemplateResult :=
  ([console_warn "There is not template defined."], Normal (html [""] [])).

(** [setupError(error) { console.error("Unhandled setup error", error); }] *)
Definition Base_setupError (this : Base S) (error : exn)
    : list output * completion unit :=
  ([console_error "Unhandled setup error" error], Normal tt).

(** [async pre() {}] and [async init() {}]: the default hooks do nothing,
    so their promise is fulfilled. What an overriding hook does is up to
    the subclass; the runs below take the outcome as an input. *)
Definition Base_pre : outcome := Fulfilled.
Definition Base_init : outcome := Fulfilled.

Definition Base_methods : BaseMethods S :=
  mkBaseMethods Base_template Base_setupError.

(** [popBubble(evt, preventDefault)]; an omitted flag is [undefined]. *)
Definition popBubble (evt : Event.t) (preventDefault_flag : JSValue)
    : list output :=
  [stopPropagation evt; stopImmediatePropagation evt]
  ++ (if ToBoolean preventDefault_flag then [preventDefault evt] else []).

Variable cls : BaseMethods S.

(** [this.template(this)] *)
Definition call_template : M (Base S) TemplateResult := λ this,
  (with_log (log this ++ call c_template :: map out (template cls this).1) this,
   (template cls this).2).

(** [this.setupError(e)], called by the chain of connection [k] *)
Definition call_setupError (k : nat) (e : exn) : M (Base S) unit := λ this,
  (with_log (log this
             ++ lifecycle k (c_setupError e) :: map out (setupError cls this e).1)
     this,
   (setupError cls this e).2).

(** [render() {
       if (this.___CAN_RENDER___) {
         if (this.shadow) render(this.template(this), this.shadow);
         else render(this.template(this), this);
       } }] *)
Definition render : M (Base S) unit :=
  this ← get;
  if ___CAN_RENDER___ this then
    match shadow this with
    | Some r => t ← call_template; tell [lit_render t (ShadowRoot r)]
    | None =>
        t ← call_template;
        tell [lit_render t (HostElement (Element.id (self this)))]
    end
  else mret tt.

(** [connectedCallback()]: calls [this.pre()] and hangs the reactions on
    its promise. Nothing else happens in the same turn. *)
Definition connectedCallback : M (Base S) unit :=
  modify (λ this,
    with_chains (chains this ++ [PrePending])
      (with_log (log this ++ [lifecycle (length (chains this)) c_pre]) this)).

Definition set_chain (k : nat) (c : chain) : M (Base S) unit :=
  modify (λ this, with_chains (<[k := c]> (chains this)) this).

(** The first reaction:
    [() => { this.___CAN_RENDER___ = true; this.render(); return Promise.resolve(); }] *)
Definition then1 : M (Base S) unit :=
  modify (with_CAN_RENDER true);;
  render.

(** The promise of the hook that chain [k] waits for settles. *)
Definition settle (k : nat) (o : outcome) : M (Base S) unit :=
  this ← get;
  match chains this !! k, o with
  | Some PrePending, Fulfilled => set_chain k Then1Queued
  | Some PrePending, Rejected e => set_chain k (CatchQueued e)
  | Some InitPending, Fulfilled => set_chain k (Settled (Normal tt))
  | Some InitPending, Rejected e => set_chain k (CatchQueued e)
  | _, _ => mret tt
  end.

(** The queued reaction of chain [k] runs as a microtask. *)
Definition microtask (k : nat) : M (Base S) unit :=
  this ← get;
  match chains this !! k with
  | Some Then1Queued =>
      r ← try then1;
      match r with
      | Normal _ => set_chain k Then2Queued
      | Throw e => set_chain k (CatchQueued e)
      end
  | Some Then2Queued =>
      tell [lifecycle k c_init];;
      set_chain k InitPending
  | Some (CatchQueued e) =>
      r ← try (call_setupError k e);
      set_chain k (Settled r)
  | _ => mret tt
  end.

(** What can happen to an instance of [Base]. *)
Inductive base_input : Type :=
| Connect                           (* the host calls [connectedCallback] *)
| Settle (k : nat) (o : outcome)    (* a hook's promise settles *)
| Microtask (k : nat)               (* a queued reaction runs *)
| CallRender                        (* somebody calls [render()] *)
| SetShadow (r : option nat).       (* somebody assigns [this.shadow] *)

Definition base_step (i : base_input) : M (Base S) unit :=
  match i with
  | Connect => connectedCallback
  | Settle k o => settle k o
  | Microtask k => microtask k
  | CallRender => render
  | SetShadow r => modify (with_shadow r)
  end.
End BaseClass.

Global Instance base_input_eq_dec : EqDecision base_input.
Proof. solve_decision. Defined.

(** Runs of an instance of [Base]: the inputs happen one after the other; an
    exception that escapes a call is the caller's and ends that call only. *)
Definition base_run {S} (cls : BaseMethods S) (ins : list base_input)
    (this : Base S) : Base S :=
  foldl (λ w i, exec (base_step cls i) w) this ins.

(** ** The class [FormBase] *)

(** A timer armed by the handler: the host's handle, the time at which it is
    due and the event its callback closes over. *)
Record timer : Type := mkTimer {
  handle : nat;
  deadline : nat;
  captured : Event.t }.

(** What [FormBase] adds to [Base], with the parts of the host it uses: the
    heap the data object lives in, the pending timers in the order they were
    armed, and the clock in milliseconds. [debounceTimeout] is the variable
    of the constructor's closure; [None] is [undefined]. *)
Record Form : Type := mkForm {
  _data : JSValue;
  debounceTimeout : option nat;
  heap : gmap loc (gmap string JSValue);
  timers : list timer;
  now : nat;
  next_handle : nat }.

Abbreviation FormBase := (Base Form).

Record FormMethods : Type := mkFormMethods {
  inherited : BaseMethods Form;
  handleChange : FormBase → Event.t → list output * completion unit }.

Definition with__data (v : JSValue) (f : Form) : Form :=
  mkForm v (debounceTimeout f) (heap f) (timers f) (now f) (next_handle f).
Definition with_debounceTimeout (d : option nat) (f : Form) : Form :=
  mkForm (_data f) d (heap f) (timers f) (now f) (next_handle f).
Definition with_heap (h : gmap loc (gmap string JSValue)) (f : Form) : Form :=
  mkForm (_data f) (debounceTimeout f) h (timers f) (now f) (next_handle f).
Definition with_timers (ts : list timer) (f : Form) : Form :=
  mkForm (_data f) (debounceTimeout f) (heap f) ts (now f) (next_handle f).
Definition with_now (t : nat) (f : Form) : Form :=
  mkForm (_data f) (debounceTimeout f) (heap f) (timers f) t (next_handle f).
Definition with_next_handle (n : nat) (f : Form) : Form :=
  mkForm (_data f) (debounceTimeout f) (heap f) (timers f) (now f) n.

Definition update (f : Form → Form) : M FormBase unit :=
  modify (λ this, with_sub (f (sub this)) this).

(** [constructor() { super(); this._data = {}; let debounceTimeout; ... }]:
    the object literal is a fresh object of the heap. *)
Definition FormBase_constructor (element : Element.t)
    (h : gmap loc (gmap string JSValue)) : FormBase :=
  Base_constructor element
    (mkForm (VObject (fresh (dom h))) None (<[fresh (dom h) := ∅]> h) [] 0 1).

(** [get data() { return this._data; }] *)
Definition get_data : M FormBase JSValue :=
  this ← get; mret (_data (sub this)).

(** The values the listener assigns: the result of [hasAttribute], a
    boolean, or the [value] of a control, a string. *)
Inductive control_value : Type :=
| Checked (b : bool)
| Value (s : string).

Definition to_JSValue (v : control_value) : JSValue :=
  match v with
  | Checked b => VBoolean b
  | Value s => VString s
  end.

(** A plain object inherits ["__proto__"] from [Object.prototype] as an
    accessor. Unless the object has an own property of that name, an
    assignment to the key runs the inherited setter, and the setter does
    nothing with a value that is neither an object nor [null]. *)
Definition inherits_setter (o : gmap string JSValue) (k : string) : bool :=
  String.eqb k "__proto__" && bool_decide (o !! k = None).

(** [o[k] = v] in strict mode (the file is a module), for the values the
    listener assigns. On a plain object the own property [k] is written in
    place, except that ["__proto__"] goes to the inherited setter and stores
    nothing. On [null] and [undefined] the assignment throws. On the other
    primitives nothing can be stored: it throws, except for ["__proto__"],
    which their wrapper inherits as the same accessor. *)
Definition put_property (o : JSValue) (k : string) (v : control_value)
    : M FormBase unit :=
  match o with
  | VUndefined | VNull => throw (TypeError "Cannot set properties")
  | VObject l | VFunction l =>
      this ← get;
      if inherits_setter (default ∅ (heap (sub this) !! l)) k then mret tt
      else
        update (λ f,
          with_heap (<[l := <[k := to_JSValue v]> (default ∅ (heap f !! l))]>
                       (heap f)) f)
  | _ =>
      if String.eqb k "__proto__" then mret tt
      else throw (TypeError "Cannot create property")
  end.

(** [setTimeout(callback, delay)] where the callback closes over [evt]; the
    host returns a fresh handle. *)
Definition setTimeout (evt : Event.t) (delay : nat) : M FormBase nat :=
  this ← get;
  update (λ f,
    with_next_handle (Datatypes.S (next_handle f))
      (with_timers (timers f ++ [mkTimer (next_handle f) (now f + delay) evt]) f));;
  mret (next_handle (sub this)).

(** [clearTimeout(h)]; [clearTimeout(undefined)] does nothing. *)
Definition clearTimeout (h : option nat) : M FormBase unit :=
  match h with
  | Some n =>
      update (λ f, with_timers (filter (λ t, handle t ≠ n) (timers f)) f)
  | None => mret tt
  end.

(** The default [handleChange(evt) {
       this.popBubble(evt);
       this.dispatchEvent(new Event("change")); }] *)
Definition FormBase_handleChange (this : FormBase) (evt : Event.t)
    : list output * completion unit :=
  (popBubble evt VUndefined
   ++ [dispatchEvent (Element.id (self this)) (new_Event "change" None)],
   Normal tt).

Definition FormBase_methods : FormMethods :=
  mkFormMethods Base_methods FormBase_handleChange.

Section FormBaseClass.
Variable cls : FormMethods.

(** [set data(value) {
       if (typeof value != "object") return;
       this._data = value;
       this.render(); }] *)
Definition set_data (value : JSValue) : M FormBase unit :=
  if negb (String.eqb (typeof value) "object") then mret tt
  else
    update (with__data value);;
    render (inherited cls).

(** [this.handleChange(evt)] *)
Definition call_handleChange (evt : Event.t) : M FormBase unit := λ this,
  (with_log (log this
             ++ call (c_handleChange evt) :: map out (handleChange cls this evt).1)
     this,
   (handleChange cls this evt).2).

(** The listener of the constructor:
    [(evt) => {
       if (evt.target === this || !evt.target.name) return;
       if (evt.target.type === "checkbox")
         this.data[evt.target.name] = evt.target.hasAttribute("checked");
       else
         this.data[evt.target.name] = evt.target.value;
       debounceTimeout = setTimeout(() => { ... }, 10); }]
    An event that was never dispatched has a null target; reading
    [evt.target.name] then throws. *)
Definition handler (evt : Event.t) : M FormBase unit :=
  this ← get;
  match Event.target evt with
  | None => throw (TypeError "Cannot read properties of null")
  | Some target =>
      if bool_decide (Element.id target = Element.id (self this))
         || negb (ToBoolean (VString (Element.name target)))
      then mret tt
      else
        (if String.eqb (Element.type target) "checkbox" then
           data ← get_data;
           put_property data (Element.name target)
             (Checked (Element.hasAttribute target "checked"))
         else
           data ← get_data;
           put_property data (Element.name target)
             (Value (Element.value target)));;
        h ← setTimeout evt 10;
        update (with_debounceTimeout (Some h))
  end.

(** The callback of the timer:
    [() => { clearTimeout(debounceTimeout); this.handleChange(evt); }] *)
Definition timeout_callback (evt : Event.t) : M FormBase unit :=
  this ← get;
  clearTimeout (debounceTimeout (sub this));;
  call_handleChange evt.

(** [this.addEventListener("change", handler);
     this.addEventListener("input", handler);] *)
Definition listener (evt : Event.t) : M FormBase unit :=
  if String.eqb (Event.type evt) "change" || String.eqb (Event.type evt) "input"
  then handler evt
  else mret tt.

(** The pending timer that is due first; of two timers due at the same
    time the one armed first. *)
Fixpoint earliest (ts : list timer) : option timer :=
  match ts with
  | [] => None
  | t :: ts' =>
      match earliest ts' with
      | Some u => if deadline u <? deadline t then Some u else Some t
      | None => Some t
      end
  end.

(** The host fires the timers due up to [limit], one at a time: the timer
    leaves the pending list, the clock moves to its deadline and its
    callback runs; an exception of the callback is reported by the host
    and goes no further. *)
Fixpoint fire_due (fuel : nat) (limit : nat) : M FormBase unit :=
  match fuel with
  | O => mret tt
  | Datatypes.S fuel' =>
      this ← get;
      match earliest (timers (sub this)) with
      | Some t =>
          if deadline t <=? limit then
            update (λ f,
              with_now (deadline t `max` now f)
                (with_timers (filter (λ u, handle u ≠ handle t) (timers f)) f));;
            try (timeout_callback (captured t));;
            fire_due fuel' limit
          else mret tt
      | None => mret tt
      end
  end.

(** [ms] milliseconds pass. No callback arms a timer, so there are at
    most as many firings as there are pending timers. *)
Definition elapse (ms : nat) : M FormBase unit :=
  this ← get;
  fire_due (length (timers (sub this))) (now (sub this) + ms);;
  update (λ f, with_now (now (sub this) + ms) f).

(** What can happen to an instance of [FormBase]. *)
Inductive form_input : Type :=
| Inherited (i : base_input)      (* anything that can happen to a [Base] *)
| Assign (value : JSValue)        (* [element.data = value] *)
| Dispatch (evt : Event.t)        (* an event reaches the listeners *)
| Elapse (ms : nat).              (* time passes *)

Definition form_step (i : form_input) : M FormBase unit :=
  match i with
  | Inherited i => base_step (inherited cls) i
  | Assign value => set_data value
  | Dispatch evt => listener evt
  | Elapse ms => elapse ms
  end.

Definition form_run (ins : list form_input) (this : FormBase) : FormBase :=
  foldl (λ w i, exec (form_step i) w) this ins.
End FormBaseClass.

(** ** Vocabulary of the statements *)

Definition is_render (e : effect) : bool :=
  match e with lit_render _ _ => true | _ => false end.

(** How often lit-html's [render] was called. *)
Definition renders (l : list effect) : nat := length (List.filter is_render l).

(** The calls made by the promise chain of connection [k], oldest first. *)
Definition chain_calls (k : nat) (l : list effect) : list lifecycle_call :=
  omap (λ e, match e with
             | lifecycle k' c => if decide (k' = k) then Some c else None
             | _ => None
             end) l.

(** The events [handleChange] was called with, oldest first. *)
Definition handleChange_calls (l : list effect) : list Event.t :=
  omap (λ e, match e with call (c_handleChange evt) => Some evt | _ => None end) l.

(** No input of the list fulfils the promise of a hook. *)
Definition no_hook_fulfilled (ins : list base_input) : bool :=
  forallb (λ i, match i with Settle _ Fulfilled => false | _ => true end) ins.

(** No input of the list is a further connection. *)
Definition no_connect (ins : list base_input) : bool :=
  forallb (λ i, match i with Connect => false | _ => true end) ins.

(** The events the listener does not ignore: of type change or input,
    with a target other than the component whose [name] is not empty. *)
Definition qualifies (component : Element.t) (evt : Event.t) : bool :=
  (String.eqb (Event.type evt) "change" || String.eqb (Event.type evt) "input")
  && match Event.target evt with
     | Some target =>
         negb (bool_decide (Element.id target = Element.id component)
               || negb (ToBoolean (VString (Element.name target))))
     | None => false
     end.

(** The timers armed by a run of events: consecutive handles from [n], all
    due at [d]. *)
Fixpoint armed (n d : nat) (evts : list Event.t) : list timer :=
  match evts with
  | [] => []
  | evt :: evts' => mkTimer n d evt :: armed (Datatypes.S n) d evts'
  end.

(** The property [k] of the object the value [v] refers to. *)
Definition property (this : FormBase) (v : JSValue) (k : string) : option JSValue :=
  match v with
  | VObject l | VFunction l => heap (sub this) !! l ≫= (λ o, o !! k)
  | _ => None
  end.


(** A custom element registry in the manner of the HTML standard: a tag
    name needs a hyphen and can be defined once. Used as an example host. *)
Definition example_define (tag : string) (c : nat) (r : gmap string nat)
    : gmap string nat + exn :=
  if existsb (Ascii.eqb "-"%char) (list_ascii_of_string tag) then
    match r !! tag with
    | None => inl (<[tag := c]> r)
    | Some _ => inr (Thrown (VString "NotSupportedError"))
    end
  else inr (Thrown (VString "SyntaxError")).

(** ** Example elements and events *)

Definition the_component : Element.t := Element.mk 0 ∅ "" "".
Definition title_input (v : string) : Element.t :=
  Element.mk 1 {[ "name" := "title" ]} "text" v.
Definition agree_checkbox : Element.t :=
  Element.mk 2 {[ "name" := "agree"; "checked" := "" ]} "checkbox" "on".
Definition nameless_input : Element.t := Element.mk 3 ∅ "text" "x".
Definition proto_input (v : string) : Element.t :=
  Element.mk 4 {[ "name" := "__proto__" ]} "text" v.
Definition input_event (target : Element.t) : Event.t :=
  Event.mk "input" true false (Some target).
Definition change_event (target : Element.t) : Event.t :=
  Event.mk "change" true false (Some target).
Definition fresh_form : FormBase := FormBase_constructor the_component ∅.

(** Five input events one millisecond apart, then a long pause. *)
Definition burst_of_five : list form_input :=
  [Dispatch (input_event (title_input "H")); Elapse 1;
   Dispatch (input_event (title_input "He")); Elapse 1;
   Dispatch (input_event (title_input "Hel")); Elapse 1;
   Dispatch (input_event (title_input "Hell")); Elapse 1;
   Dispatch (input_event (title_input "Hello")); Elapse 100].

(** ** The listing of [Base] without shadow support *)

Section BaseWithoutShadow.
Context {S : Type} (cls : BaseMethods S).

(** [render() { if (this.___CAN_RENDER___) render(this.template(this), this); }]:
    the second listing of the class in [index.js] has no [FormBase] and a
    [render] that never looks at [this.shadow]; the rest of it is the same
    text as the first. *)
Definition render_without_shadow : M (Base S) unit :=
  this ← get;
  if ___CAN_RENDER___ this then
    t ← call_template cls;
    tell [lit_render t (HostElement (Element.id (self this)))]
  else mret tt.
End BaseWithoutShadow.

(** ** More vocabulary *)

(** How many times the host connected the element. *)
Definition connections (ins : list base_input) : nat :=
  length (List.filter (λ i, match i with Connect => true | _ => false end) ins).

(** No input of the list rejects the promise of a hook. *)
Definition no_hook_rejected (ins : list base_input) : bool :=
  forallb (λ i, match i with Settle _ (Rejected _) => false | _ => true end) ins.

(** What the chain of a connection has called so far, given its state. *)
Definition calls_fit (c : chain) (calls : list lifecycle_call) : Prop :=
  match c with
  | PrePending | Then1Queued | Then2Queued => calls = [c_pre]
  | InitPending => calls = [c_pre; c_init]
  | CatchQueued e => calls = [c_pre] ∨ calls = [c_pre; c_init]
  | Settled _ =>
      calls = [c_pre; c_init]
      ∨ ∃ e, calls = [c_pre; c_setupError e]
             ∨ calls = [c_pre; c_init; c_setupError e]
  end.

(** The element is never connected during the run. *)
Definition never_connected (ins : list form_input) : bool :=
  forallb (λ i, match i with Inherited Connect => false | _ => true end) ins.

(** [null] is never assigned to [data] during the run. *)
Definition no_null_assigned (ins : list form_input) : bool :=
  forallb (λ i, match i with Assign VNull => false | _ => true end) ins.



(** A subclass whose [template] throws. *)
Definition throwing_template {S : Type} (e : exn) : BaseMethods S :=
  mkBaseMethods (λ _, ([user_action "template"], Throw e)) Base_setupError.

(** ** Proof support *)

Ltac unfold_monad :=
  unfold exec, try, tell, update, modify, get, throw, mbind, M_bind, mret, M_ret
    in *.

(** * Theorems *)

(** ** The registrar *)

(** C9. [makewc] hands the tag and the class to the host's [define] and does
    nothing else: it returns exactly when [define] accepts, the registry is
    then the one [define] produced and the value returned is the very class
    it was given; it throws exactly when [define] throws, with the same
    exception. *)
Theorem makewc_registers_and_returns_class :
  ∀ (Registry C : Type) (define : string → C → Registry → Registry + exn)
    (tag_name : string) (component_class : C) (customElements : Registry),
    (∀ r c, makewc Registry C define tag_name component_class customElements
              = (r, Normal c)
            ↔ define tag_name component_class customElements = inl r
              ∧ c = component_class)
    ∧ (∀ r e, makewc Registry C define tag_name component_class customElements
                = (r, Throw e)
              ↔ define tag_name component_class customElements = inr e
                ∧ r = customElements).
Proof.
  intros Registry C define tag cl reg. unfold makewc.
  destruct (define tag cl reg) as [reg'|e'] eqn:Hdef; split; intros r x;
    split; intros H.
  - inversion H; subst; auto.
  - destruct H as [H ->]. inversion H; subst; reflexivity.
  - discriminate H.
  - destruct H as [H _]. discriminate H.
  - discriminate H.
  - destruct H as [H _]. discriminate H.
  - inversion H; subst; auto.
  - destruct H as [H ->]. inversion H; subst; reflexivity.
Qed.

(** With the example registry: after [makewc] returns, the tag is bound to
    the class. *)
Lemma makewc_example_lookup (tag : string) (c : nat) (r r' : gmap string nat) (c' : nat) :
  makewc _ _ example_define tag c r = (r', Normal c') →
  r' !! tag = Some c ∧ c' = c.
Proof.
  unfold makewc, example_define.
  destruct (existsb _ _); [destruct (r !! tag) eqn:E|]; intros H;
    inversion H; subst.
  split; [apply lookup_insert_eq | reflexivity].
Qed.

Example makewc_example :
  makewc _ _ example_define "fancy-component" 7 ∅
  = ({[ "fancy-component" := 7 ]}, Normal 7).
Proof. reflexivity. Qed.

Example makewc_example_invalid :
  makewc _ _ example_define "fancy" 7 ∅ = (∅, Throw (Thrown (VString "SyntaxError"))).
Proof. reflexivity. Qed.

(** ** Rendering *)

Lemma renders_app (l1 l2 : list effect) :
  renders (l1 ++ l2) = renders l1 + renders l2.
Proof. unfold renders. rewrite List.filter_app, length_app. reflexivity. Qed.

Lemma renders_cons (e : effect) (l : list effect) :
  renders (e :: l) = (if is_render e then 1 else 0) + renders l.
Proof. unfold renders. simpl. destruct (is_render e); reflexivity. Qed.

Lemma renders_nil : renders [] = 0.
Proof. reflexivity. Qed.

Lemma renders_outputs (os : list output) : renders (map out os) = 0.
Proof. induction os as [|o os IH]; [reflexivity | exact IH]. Qed.

Lemma renders_method_call (m : method_call) (os : list output) :
  renders (call m :: map out os) = 0.
Proof. exact (renders_outputs os). Qed.

Lemma renders_lifecycle_call (k : nat) (c : lifecycle_call) (os : list output) :
  renders (lifecycle k c :: map out os) = 0.
Proof. exact (renders_outputs os). Qed.

Create Rewrite HintDb renders.
#[local] Hint Rewrite renders_app renders_cons renders_outputs renders_nil : renders.

Lemma chain_calls_app (k : nat) (l1 l2 : list effect) :
  chain_calls k (l1 ++ l2) = chain_calls k l1 ++ chain_calls k l2.
Proof. apply omap_app. Qed.

Lemma chain_calls_outputs (k : nat) (os : list output) :
  chain_calls k (map out os) = [].
Proof. induction os as [|o os IH]; [reflexivity | exact IH]. Qed.

Lemma chain_calls_lifecycle (k k' : nat) (c : lifecycle_call) (l : list effect) :
  chain_calls k (lifecycle k' c :: l)
  = (if decide (k' = k) then [c] else []) ++ chain_calls k l.
Proof. unfold chain_calls. simpl. destruct (decide (k' = k)); reflexivity. Qed.

Section Render.
Context {S : Type} (cls : BaseMethods S).

Lemma render_off (this : Base S) :
  ___CAN_RENDER___ this = false → render cls this = (this, Normal tt).
Proof.
  intros Hoff. unfold render. unfold_monad. simpl. rewrite Hoff. reflexivity.
Qed.

Lemma render_on (this : Base S) :
  ___CAN_RENDER___ this = true →
  render cls this
  = match (template cls this).2 with
    | Normal t =>
        (with_log
           (log this
            ++ (call c_template :: map out (template cls this).1)
            ++ [lit_render t
                  match shadow this with
                  | Some r => ShadowRoot r
                  | None => HostElement (Element.id (self this))
                  end])
           this,
         Normal tt)
    | Throw e =>
        (with_log
           (log this ++ call c_template :: map out (template cls this).1) this,
         Throw e)
    end.
Proof.
  intros Hon. destruct this as [el fl sh ch lg sb]. simpl in Hon. subst fl.
  unfold render, call_template. unfold_monad. simpl.
  destruct sh; simpl; destruct (template cls _).2; unfold with_log; simpl;
    rewrite <- ?app_assoc; reflexivity.
Qed.

(** [render] touches nothing but the log; what it appends is none of a
    chain's calls and holds at most one call of lit-html's [render]. *)
Lemma render_effect (this : Base S) :
  ∃ l, (render cls this).1 = with_log (log this ++ l) this
       ∧ (∀ k, chain_calls k l = [])
       ∧ renders l ≤ 1
       ∧ (___CAN_RENDER___ this = false → l = [])
       ∧ (∀ r, (render cls this).2 = Normal r →
            ___CAN_RENDER___ this = true → renders l = 1).
Proof.
  destruct (___CAN_RENDER___ this) eqn:Hf.
  - rewrite (render_on this Hf).
    destruct (template cls this).2 as [t|e]; simpl; eexists;
      (split; [reflexivity|]);
      (split; [intros k; simpl; rewrite ?chain_calls_app;
               rewrite chain_calls_outputs; reflexivity|]);
      autorewrite with renders; simpl; repeat split; try lia;
      try discriminate.
  - rewrite (render_off this Hf). exists []. simpl.
    rewrite app_nil_r. destruct this; repeat split; auto. discriminate.
Qed.
End Render.

(** C8. [render] is a no-op while the flag is false. While it is true,
    [render] calls the [template] override and, when that returns, hands its
    result to lit-html's [render], on the shadow root when [this.shadow] is
    set and on the element itself otherwise; when [template] throws, so does
    [render], and nothing is handed over. The default [template] warns on
    the console and returns the empty template. *)
Theorem render_guarded_by_flag {S : Type} (cls : BaseMethods S) (this : Base S) :
  (___CAN_RENDER___ this = false → render cls this = (this, Normal tt))
  ∧ (___CAN_RENDER___ this = true →
       (∀ t, (template cls this).2 = Normal t →
          render cls this
          = (with_log
               (log this
                ++ (call c_template :: map out (template cls this).1)
                ++ [lit_render t
                      match shadow this with
                      | Some r => ShadowRoot r
                      | None => HostElement (Element.id (self this))
                      end])
               this,
             Normal tt))
       ∧ (∀ e, (template cls this).2 = Throw e →
            render cls this
            = (with_log
                 (log this ++ call c_template :: map out (template cls this).1)
                 this,
               Throw e)))
  ∧ template Base_methods this
    = ([console_warn "There is not template defined."], Normal (html [""] [])).
Proof.
  split; [apply render_off | split; [|reflexivity]].
  intros Hon. rewrite (render_on cls this Hon).
  split; [intros t Ht | intros e He].
  - rewrite Ht. reflexivity.
  - rewrite He. reflexivity.
Qed.

Lemma render_guarded_by_flag_witness :
  render Base_methods (with_CAN_RENDER true fresh_form)
  = (with_log
       [call c_template; out (console_warn "There is not template defined.");
        lit_render (html [""] []) (HostElement 0)]
       (with_CAN_RENDER true fresh_form),
     Normal tt)
  ∧ render Base_methods fresh_form = (fresh_form, Normal tt).
Proof.
  split.
  - exact (proj1 (proj1 (proj2 (render_guarded_by_flag Base_methods
             (with_CAN_RENDER true fresh_form))) eq_refl) (html [""] []) eq_refl).
  - exact (proj1 (render_guarded_by_flag Base_methods fresh_form) eq_refl).
Defined.

(** ** The [data] property *)

Lemma set_data_rejected (cls : FormMethods) (this : FormBase) (value : JSValue) :
  typeof value ≠ "object" → set_data cls value this = (this, Normal tt).
Proof.
  intros Hty. unfold set_data.
  destruct (String.eqb_spec (typeof value) "object"); [contradiction|].
  reflexivity.
Qed.

Lemma set_data_object (cls : FormMethods) (this : FormBase) (value : JSValue) :
  typeof value = "object" →
  set_data cls value this
  = render (inherited cls) (with_sub (with__data value (sub this)) this).
Proof. intros Hty. unfold set_data. rewrite Hty. reflexivity. Qed.

(** After a successful assignment: the new reference, the same heap, and a
    log that grew by what one call of [render] appends. *)
Lemma set_data_effect (cls : FormMethods) (this : FormBase) (value : JSValue) :
  typeof value = "object" →
  ∃ l, (set_data cls value this).1
       = with_log (log this ++ l) (with_sub (with__data value (sub this)) this)
       ∧ (∀ k, chain_calls k l = [])
       ∧ renders l ≤ 1
       ∧ (___CAN_RENDER___ this = false → l = [])
       ∧ (∀ t, ___CAN_RENDER___ this = true →
            (template (inherited cls)
               (with_sub (with__data value (sub this)) this)).2 = Normal t →
            renders l = 1).
Proof.
  intros Hty. rewrite (set_data_object cls this value Hty).
  set (this' := with_sub (with__data value (sub this)) this).
  destruct (render_effect (inherited cls) this') as (l & Hl & Hc & Hle & Hoff & Hon).
  exists l. repeat split; auto.
  intros t Hf Ht. apply (Hon tt); [|exact Hf].
  rewrite (render_on (inherited cls) this' Hf), Ht. reflexivity.
Qed.

(** C4, at the failing input: [null] is not an object, yet assigning it is
    not ignored. The backing reference becomes [null], so the mapping that
    was there is no longer the one [data] returns, and [render] is called:
    with rendering enabled and a [template] that returns, lit-html is reached
    once more. The assignment is not a no-op. *)
Theorem assigning_null_is_not_ignored (cls : FormMethods) (this : FormBase)
    (t : TemplateResult) :
  ___CAN_RENDER___ this = true →
  (template (inherited cls) (with_sub (with__data VNull (sub this)) this)).2
  = Normal t →
  _data (sub (exec (set_data cls VNull) this)) = VNull
  ∧ renders (log (exec (set_data cls VNull) this)) = renders (log this) + 1
  ∧ set_data cls VNull this ≠ (this, Normal tt).
Proof.
  intros Hf Ht.
  destruct (set_data_effect cls this VNull eq_refl) as (l & Hl & _ & _ & _ & Hon).
  assert (Hr : renders (log (exec (set_data cls VNull) this))
               = renders (log this) + 1).
  { unfold exec. rewrite Hl. simpl. rewrite renders_app, (Hon t Hf Ht).
    reflexivity. }
  split; [unfold exec; rewrite Hl; reflexivity|]. split; [exact Hr|].
  intros Heq. unfold exec in Hr. rewrite Heq in Hr. simpl in Hr. lia.
Qed.

Lemma assigning_null_is_not_ignored_witness :
  let connected :=
    form_run FormBase_methods
      [Inherited Connect; Inherited (Settle 0 Fulfilled); Inherited (Microtask 0)]
      fresh_form in
  _data (sub (exec (set_data FormBase_methods VNull) connected)) = VNull
  ∧ renders (log (exec (set_data FormBase_methods VNull) connected))
    = renders (log connected) + 1
  ∧ set_data FormBase_methods VNull connected ≠ (connected, Normal tt).
Proof.
  exact (assigning_null_is_not_ignored FormBase_methods
           (form_run FormBase_methods
              [Inherited Connect; Inherited (Settle 0 Fulfilled);
               Inherited (Microtask 0)] fresh_form)
           (html [""] []) eq_refl eq_refl).
Defined.

(** The constructor's [this._data = {}]: a fresh, empty object. *)
Lemma constructor_data_is_empty_object
    (element : Element.t) (h : gmap loc (gmap string JSValue)) :
  ∃ l, _data (sub (FormBase_constructor element h)) = VObject l
       ∧ h !! l = None
       ∧ heap (sub (FormBase_constructor element h)) !! l = Some ∅.
Proof.
  exists (fresh (dom h)). simpl. split; [reflexivity|]. split.
  - apply not_elem_of_dom. apply is_fresh.
  - apply lookup_insert_eq.
Qed.

(** C5, at the failing input: [typeof null] is ["object"], so the setter
    lets [null] through, the backing reference becomes [null], and the next
    qualifying event makes the listener throw. *)
Theorem assigning_null_makes_data_null (cls : FormMethods) (this : FormBase) :
  _data (sub (exec (set_data cls VNull) this)) = VNull
  ∧ (listener (input_event (title_input "Hello"))
       (exec (set_data cls VNull) fresh_form)).2
    = Throw (TypeError "Cannot set properties").
Proof.
  split.
  - destruct (set_data_effect cls this VNull eq_refl) as (l & Hl & _).
    unfold exec. rewrite Hl. reflexivity.
  - destruct (set_data_effect cls fresh_form VNull eq_refl)
      as (l & Hl & _ & _ & Hoff & _).
    unfold exec. rewrite Hl, (Hoff eq_refl). reflexivity.
Qed.

(** ** The default change handler *)

(** C7, as the spec states it, fails: the event that the default
    [handleChange] dispatches does not bubble. *)
Lemma default_handleChange_event_does_not_bubble :
  ¬ ∃ ev, In (dispatchEvent (Element.id the_component) ev)
            (FormBase_handleChange fresh_form (change_event agree_checkbox)).1
          ∧ Event.bubbles ev = true.
Proof.
  intros (ev & Hin & Hb). simpl in Hin.
  destruct Hin as [H|[H|[H|[]]]]; try discriminate H.
  inversion H; subst. discriminate Hb.
Qed.

(** C7, amended. The default [handleChange] calls [stopPropagation] and
    [stopImmediatePropagation] on the triggering event, does not call
    [preventDefault], and dispatches from the component itself a new event
    of type ["change"] built without options: it neither bubbles nor is
    cancelable. The component's own listener ignores that event. *)
Theorem default_handleChange_stops_and_redispatches
    (this : FormBase) (evt : Event.t) :
  FormBase_handleChange this evt
  = ([stopPropagation evt; stopImmediatePropagation evt;
      dispatchEvent (Element.id (self this))
        (Event.mk "change" false false None)],
     Normal tt)
  ∧ listener (Event.mk "change" false false (Some (self this))) this
    = (this, Normal tt).
Proof.
  split; [reflexivity|].
  unfold listener, handler. unfold_monad. simpl.
  rewrite bool_decide_eq_true_2 by reflexivity. reflexivity.
Qed.

(** ** The change and input listener *)

(** When the key goes to the inherited setter. *)
Lemma inherits_setter_spec (h : gmap loc (gmap string JSValue)) (l : loc)
    (k : string) :
  inherits_setter (default ∅ (h !! l)) k = true
  ↔ k = "__proto__" ∧ h !! l ≫= (λ o, o !! k) = None.
Proof.
  unfold inherits_setter. rewrite andb_true_iff, String.eqb_eq, bool_decide_eq_true.
  destruct (h !! l) as [o|]; simpl; [tauto|].
  rewrite lookup_empty. tauto.
Qed.

(** What the listener does with an event it does not ignore, while the
    backing data is an object. *)
Lemma listener_store (evt : Event.t) (this : FormBase) (target : Element.t)
    (l : loc) :
  Event.type evt = "change" ∨ Event.type evt = "input" →
  Event.target evt = Some target →
  _data (sub this) = VObject l →
  Element.id target ≠ Element.id (self this) →
  Element.name target ≠ "" →
  ∃ this',
    listener evt this = (this', Normal tt)
    ∧ _data (sub this') = VObject l
    ∧ heap (sub this')
      = (if inherits_setter (default ∅ (heap (sub this) !! l)) (Element.name target)
         then heap (sub this)
         else <[l := <[Element.name target :=
                         if String.eqb (Element.type target) "checkbox"
                         then VBoolean (bool_decide
                                          (is_Some (Element.attributes target
                                                    !! "checked")))
                         else VString (Element.value target)]>
                     (default ∅ (heap (sub this) !! l))]> (heap (sub this)))
    ∧ timers (sub this')
      = timers (sub this)
        ++ [mkTimer (next_handle (sub this)) (now (sub this) + 10) evt]
    ∧ debounceTimeout (sub this') = Some (next_handle (sub this)).
Proof.
  intros Hty Htg Hdata Hid Hname.
  assert (Hl : listener evt this = handler evt this).
  { unfold listener. destruct Hty as [-> | ->]; reflexivity. }
  rewrite Hl. unfold handler, get_data, setTimeout, put_property.
  unfold_monad. simpl. rewrite Htg.
  rewrite bool_decide_eq_false_2 by exact Hid.
  destruct (String.eqb_spec (Element.name target) ""); [contradiction|]. simpl.
  destruct this as [el fl sh ch lg [d db hp ts nw nx]]. simpl in *. subst d.
  destruct (String.eqb (Element.type target) "checkbox"); simpl;
    destruct (inherits_setter _ _); simpl;
    eexists; (split; [reflexivity|]); simpl; auto.
Qed.

Lemma listener_ignores (evt : Event.t) (this : FormBase) (target : Element.t) :
  Event.target evt = Some target →
  Element.id target = Element.id (self this)
  ∨ Element.attributes target !! "name" = None →
  listener evt this = (this, Normal tt).
Proof.
  intros Htg Hign. unfold listener. destruct (_ || _); [|reflexivity].
  unfold handler. unfold_monad. simpl. rewrite Htg.
  destruct Hign as [Hid | Hnone].
  - rewrite bool_decide_eq_true_2 by exact Hid. reflexivity.
  - unfold Element.name. rewrite Hnone. simpl. rewrite orb_true_r. reflexivity.
Qed.

(** C6, as the spec states it, fails. A control named ["__proto__"] is
    named, so its event is not ignored; yet nothing is stored under that
    name, since the assignment goes to the setter every plain object
    inherits. And once [null] has been assigned to [data], an event that is
    not ignored is not stored either: the listener throws. *)
Lemma listener_stores_nothing_for_proto_or_null_data :
  (∃ this',
     listener (input_event (proto_input "Hello")) fresh_form = (this', Normal tt)
     ∧ property this' (_data (sub this')) "__proto__" = None
     ∧ heap (sub this') = heap (sub fresh_form))
  ∧ (let nulled := exec (set_data FormBase_methods VNull) fresh_form in
     listener (input_event (title_input "Hello")) nulled
     = (nulled, Throw (TypeError "Cannot set properties"))
     ∧ property nulled (_data (sub nulled)) "title" = None).
Proof.
  split.
  - eexists. split; [reflexivity|]. split; vm_compute; reflexivity.
  - split; vm_compute; reflexivity.
Qed.

(** C6, amended. A change or input event reaches the component while the
    backing data is an object. If the target is another element with a
    non-empty name, one timer is armed, 10 ms ahead, and the object gets,
    under that name, the boolean "has a [checked] attribute" when the
    target's type is ["checkbox"] and the target's [value] string otherwise;
    except that for the name ["__proto__"], unless the object has an own
    property of that name, nothing is stored. If the target is the component
    itself, or has no [name] attribute, nothing changes at all: no store and
    no timer. *)
Theorem listener_stores_control_value
    (cls : FormMethods) (this : FormBase) (evt : Event.t)
    (target : Element.t) (l : loc) :
  Event.type evt = "change" ∨ Event.type evt = "input" →
  Event.target evt = Some target →
  _data (sub this) = VObject l →
  (Element.id target ≠ Element.id (self this) →
   Element.name target ≠ "" →
   ∃ this',
     form_step cls (Dispatch evt) this = (this', Normal tt)
     ∧ _data (sub this') = VObject l
     ∧ (Element.name target ≠ "__proto__"
        ∨ is_Some (property this (VObject l) "__proto__") →
        heap (sub this')
        = <[l := <[Element.name target :=
                     if String.eqb (Element.type target) "checkbox"
                     then VBoolean (bool_decide
                                      (is_Some (Element.attributes target
                                                !! "checked")))
                     else VString (Element.value target)]>
                 (default ∅ (heap (sub this) !! l))]> (heap (sub this)))
     ∧ (Element.name target = "__proto__" →
        property this (VObject l) "__proto__" = None →
        heap (sub this') = heap (sub this))
     ∧ timers (sub this')
       = timers (sub this)
         ++ [mkTimer (next_handle (sub this)) (now (sub this) + 10) evt])
  ∧ (Element.id target = Element.id (self this)
     ∨ Element.attributes target !! "name" = None →
     form_step cls (Dispatch evt) this = (this, Normal tt)).
Proof.
  intros Hty Htg Hdata. split.
  - intros Hid Hname.
    destruct (listener_store evt this target l Hty Htg Hdata Hid Hname)
      as (this' & Hs & Hd & Hh & Ht & _).
    exists this'. split; [exact Hs|]. split; [exact Hd|].
    split; [|split; [|exact Ht]].
    + intros Hown. rewrite Hh.
      destruct (inherits_setter _ _) eqn:Hin; [|reflexivity].
      apply inherits_setter_spec in Hin as [Hk Hnone]. exfalso.
      destruct Hown as [Hne | Hsome]; [contradiction|].
      unfold property in Hsome. rewrite Hk in Hnone. rewrite Hnone in Hsome.
      destruct Hsome as [? Habs]. discriminate Habs.
    + intros Hk Hnone. rewrite Hh.
      rewrite (proj2 (inherits_setter_spec (heap (sub this)) l _));
        [reflexivity|].
      split; [exact Hk|]. rewrite Hk. exact Hnone.
  - intros Hign. exact (listener_ignores evt this target Htg Hign).
Qed.

Lemma listener_stores_control_value_witness :
  (∃ this',
     form_step FormBase_methods (Dispatch (change_event agree_checkbox)) fresh_form
     = (this', Normal tt)
     ∧ property this' (_data (sub this')) "agree" = Some (VBoolean true))
  ∧ (∃ this',
     form_step FormBase_methods (Dispatch (input_event (title_input "Hello"))) fresh_form
     = (this', Normal tt)
     ∧ property this' (_data (sub this')) "title" = Some (VString "Hello"))
  ∧ (∃ this',
     form_step FormBase_methods (Dispatch (input_event (proto_input "Hello"))) fresh_form
     = (this', Normal tt)
     ∧ heap (sub this') = heap (sub fresh_form))
  ∧ form_step FormBase_methods (Dispatch (input_event nameless_input)) fresh_form
    = (fresh_form, Normal tt).
Proof.
  split; [|split; [|split]].
  - destruct (proj1 (listener_stores_control_value FormBase_methods fresh_form
                       (change_event agree_checkbox) agree_checkbox 1%positive
                       (or_introl eq_refl) eq_refl eq_refl))
      as (this' & Hstep & Hd & Hh & _); [discriminate | discriminate |].
    exists this'. split; [exact Hstep|]. rewrite Hd. unfold property.
    rewrite Hh by (left; discriminate). vm_compute. reflexivity.
  - destruct (proj1 (listener_stores_control_value FormBase_methods fresh_form
                       (input_event (title_input "Hello")) (title_input "Hello")
                       1%positive (or_intror eq_refl) eq_refl eq_refl))
      as (this' & Hstep & Hd & Hh & _); [discriminate | discriminate |].
    exists this'. split; [exact Hstep|]. rewrite Hd. unfold property.
    rewrite Hh by (left; discriminate). vm_compute. reflexivity.
  - destruct (proj1 (listener_stores_control_value FormBase_methods fresh_form
                       (input_event (proto_input "Hello")) (proto_input "Hello")
                       1%positive (or_intror eq_refl) eq_refl eq_refl))
      as (this' & Hstep & _ & _ & Hh & _); [discriminate | discriminate |].
    exists this'. split; [exact Hstep|]. apply Hh; reflexivity.
  - apply (proj2 (listener_stores_control_value FormBase_methods fresh_form
                    (input_event nameless_input) nameless_input 1%positive
                    (or_intror eq_refl) eq_refl eq_refl)).
    right. reflexivity.
Defined.

(** ** The lifecycle *)

Section Lifecycle.
Context {S : Type} (cls : BaseMethods S).

(** The first reaction: the flag is set, then [render] runs. *)
Lemma microtask_then1 (this : Base S) (k : nat) :
  chains this !! k = Some Then1Queued →
  ∃ l,
    exec (microtask cls k) this
    = with_chains
        (<[k := match (render cls (with_CAN_RENDER true this)).2 with
                | Normal _ => Then2Queued
                | Throw e => CatchQueued e
                end]> (chains this))
        (with_log (log this ++ l) (with_CAN_RENDER true this))
    ∧ (∀ k', chain_calls k' l = [])
    ∧ (∀ r, (render cls (with_CAN_RENDER true this)).2 = Normal r →
         renders l = 1).
Proof.
  intros Hk.
  destruct (render_effect cls (with_CAN_RENDER true this))
    as (l & Hl & Hc & _ & _ & Hr).
  exists l. split; [|split; [exact Hc|]].
  - unfold microtask, then1, set_chain. unfold_monad. simpl. rewrite Hk. simpl.
    rewrite Hl.
    destruct (render cls (with_CAN_RENDER true this)).2; reflexivity.
  - intros r Hn. apply (Hr r Hn). reflexivity.
Qed.

Lemma microtask_then1_eq (this : Base S) (k : nat) :
  chains this !! k = Some Then1Queued →
  exec (microtask cls k) this
  = with_chains
      (<[k := match (render cls (with_CAN_RENDER true this)).2 with
              | Normal _ => Then2Queued
              | Throw e => CatchQueued e
              end]> (chains (render cls (with_CAN_RENDER true this)).1))
      (render cls (with_CAN_RENDER true this)).1.
Proof.
  intros Hk. unfold microtask, then1, set_chain. unfold_monad. simpl.
  rewrite Hk. simpl.
  destruct (render cls (with_CAN_RENDER true this)).2; reflexivity.
Qed.

Lemma microtask_then2 (this : Base S) (k : nat) :
  chains this !! k = Some Then2Queued →
  exec (microtask cls k) this
  = with_chains (<[k := InitPending]> (chains this))
      (with_log (log this ++ [lifecycle k c_init]) this).
Proof.
  intros Hk. unfold microtask, set_chain. unfold_monad. simpl. rewrite Hk.
  reflexivity.
Qed.

Lemma microtask_catch (this : Base S) (k : nat) (e : exn) :
  chains this !! k = Some (CatchQueued e) →
  exec (microtask cls k) this
  = with_chains (<[k := Settled (setupError cls this e).2]> (chains this))
      (with_log
         (log this ++ lifecycle k (c_setupError e)
                      :: map out (setupError cls this e).1) this).
Proof.
  intros Hk. unfold microtask, set_chain, call_setupError. unfold_monad.
  simpl. rewrite Hk. reflexivity.
Qed.

Lemma microtask_idle (this : Base S) (k : nat) :
  chains this !! k ≠ Some Then1Queued →
  chains this !! k ≠ Some Then2Queued →
  (∀ e, chains this !! k ≠ Some (CatchQueued e)) →
  exec (microtask cls k) this = this.
Proof.
  intros H1 H2 H3. unfold microtask. unfold_monad. simpl.
  destruct (chains this !! k) as [[| | | |e|r]|]; try reflexivity;
    [destruct H1 | destruct H2 | destruct (H3 e)]; reflexivity.
Qed.

Lemma settle_effect (this : Base S) (k : nat) (o : outcome) :
  exec (settle k o) this
  = match chains this !! k, o with
    | Some PrePending, Fulfilled =>
        with_chains (<[k := Then1Queued]> (chains this)) this
    | Some InitPending, Fulfilled =>
        with_chains (<[k := Settled (Normal tt)]> (chains this)) this
    | Some PrePending, Rejected e | Some InitPending, Rejected e =>
        with_chains (<[k := CatchQueued e]> (chains this)) this
    | _, _ => this
    end.
Proof.
  unfold settle, set_chain. unfold_monad. simpl.
  destruct (chains this !! k) as [[| | | |e|r]|], o; reflexivity.
Qed.

Lemma render_disabled (this : Base S) :
  ___CAN_RENDER___ this = false → exec (render cls) this = this.
Proof.
  intros Hoff. destruct (render_effect cls this) as (l & Hl & _ & _ & Hnil & _).
  unfold exec. rewrite Hl, (Hnil Hoff), app_nil_r.
  destruct this; reflexivity.
Qed.

(** While no hook has been fulfilled, rendering stays disabled, nothing
    has been rendered and no first reaction is queued. *)
Lemma quiet_step (i : base_input) (this : Base S) :
  match i with Settle _ Fulfilled => False | _ => True end →
  ___CAN_RENDER___ this = false ∧ renders (log this) = 0
  ∧ (∀ k, chains this !! k ≠ Some Then1Queued) →
  ___CAN_RENDER___ (exec (base_step cls i) this) = false
  ∧ renders (log (exec (base_step cls i) this)) = 0
  ∧ (∀ k, chains (exec (base_step cls i) this) !! k ≠ Some Then1Queued).
Proof.
  intros Hi (Hf & Hr & Hc). destruct i as [|k o|k| |r]; simpl.
  - unfold connectedCallback. unfold_monad. simpl. repeat split; auto.
    + rewrite renders_app, Hr. reflexivity.
    + intros k Hk. apply lookup_app_Some in Hk as [Hk | [_ Hk]].
      * exact (Hc k Hk).
      * destruct (k - length (chains this)) as [|n]; simpl in Hk;
          [discriminate Hk | destruct n; discriminate Hk].
  - rewrite settle_effect. destruct o as [|e]; [destruct Hi|].
    destruct (chains this !! k) as [[| | | |e'|r]|] eqn:Hk; simpl;
      repeat split; auto; intros k' Hk';
      apply list_lookup_insert_Some in Hk' as [(_ & Hk' & _) | (_ & Hk')];
      try discriminate Hk'; exact (Hc k' Hk').
  - destruct (chains this !! k) as [[| | | |e|r]|] eqn:Hk;
      try (rewrite microtask_idle by (rewrite Hk; congruence);
           repeat split; auto).
    + rewrite microtask_then2 by exact Hk. simpl. repeat split; auto.
      * rewrite renders_app, Hr. reflexivity.
      * intros k' Hk'.
        apply list_lookup_insert_Some in Hk' as [(_ & Hk' & _) | (_ & Hk')];
          [discriminate Hk' | exact (Hc k' Hk')].
    + rewrite (microtask_catch _ _ e) by exact Hk. simpl. repeat split; auto.
      * rewrite renders_app, Hr, renders_lifecycle_call. reflexivity.
      * intros k' Hk'.
        apply list_lookup_insert_Some in Hk' as [(_ & Hk' & _) | (_ & Hk')];
          [discriminate Hk' | exact (Hc k' Hk')].
  - rewrite render_disabled by exact Hf. auto.
  - unfold_monad. simpl. auto.
Qed.

Lemma quiet_run (ins : list base_input) (this : Base S) :
  no_hook_fulfilled ins = true →
  ___CAN_RENDER___ this = false ∧ renders (log this) = 0
  ∧ (∀ k, chains this !! k ≠ Some Then1Queued) →
  ___CAN_RENDER___ (base_run cls ins this) = false
  ∧ renders (log (base_run cls ins this)) = 0.
Proof.
  revert this. induction ins as [|i ins IH]; intros this Hins Hq.
  - simpl. tauto.
  - simpl in Hins. apply andb_true_iff in Hins as [Hi Hins].
    apply (IH _ Hins). apply quiet_step; [|exact Hq].
    destruct i as [|k [|e]|k| |r]; try exact I. discriminate Hi.
Qed.

(** Nothing ever clears the flag. *)
Lemma enabled_step (i : base_input) (this : Base S) :
  ___CAN_RENDER___ this = true →
  ___CAN_RENDER___ (exec (base_step cls i) this) = true.
Proof.
  intros Hf. destruct i as [|k o|k| |r]; simpl.
  - exact Hf.
  - rewrite settle_effect.
    destruct (chains this !! k) as [[| | | |e'|r]|], o; exact Hf.
  - destruct (chains this !! k) as [[| | | |e|r]|] eqn:Hk;
      try (rewrite microtask_idle by (rewrite Hk; congruence); exact Hf).
    + destruct (microtask_then1 this k Hk) as (l & -> & _). reflexivity.
    + rewrite microtask_then2 by exact Hk. exact Hf.
    + rewrite (microtask_catch _ _ e) by exact Hk. exact Hf.
  - destruct (render_effect cls this) as (l & Hl & _). unfold exec. rewrite Hl.
    exact Hf.
  - exact Hf.
Qed.

Lemma enabled_run (ins : list base_input) (this : Base S) :
  ___CAN_RENDER___ this = true →
  ___CAN_RENDER___ (base_run cls ins this) = true.
Proof.
  revert this. induction ins as [|i ins IH]; intros this Hf; [exact Hf|].
  simpl. apply IH, enabled_step, Hf.
Qed.

Lemma chain_calls_init_in (k : nat) (l1 l2 : list effect) :
  c_init ∈ chain_calls k (l1 ++ lifecycle k c_init :: l2).
Proof.
  rewrite chain_calls_app. apply elem_of_app. right. simpl.
  unfold chain_calls at 1. simpl. rewrite decide_True by reflexivity.
  apply list_elem_of_here.
Qed.

(** Appending effects that contain no call of [init] keeps "every call of
    [init] comes after a render". *)
Lemma init_after_render_app (l d : list effect) :
  (∀ l1 k l2, l = l1 ++ lifecycle k c_init :: l2 → 0 < renders l1) →
  (∀ k, c_init ∉ chain_calls k d) →
  ∀ l1 k l2, l ++ d = l1 ++ lifecycle k c_init :: l2 → 0 < renders l1.
Proof.
  intros Hl Hd l1 k l2 Heq.
  apply app_eq_app in Heq as (m & [(Hm1 & Hm2) | (Hm1 & Hm2)]).
  - destruct m as [|y m].
    + simpl in Hm2. exfalso. apply (Hd k). rewrite <- Hm2.
      apply (chain_calls_init_in k []).
    + simpl in Hm2. injection Hm2 as <- _. exact (Hl _ _ _ Hm1).
  - exfalso. apply (Hd k). rewrite Hm2. apply chain_calls_init_in.
Qed.

Lemma init_after_render_snoc (l : list effect) (k' : nat) :
  (∀ l1 k l2, l = l1 ++ lifecycle k c_init :: l2 → 0 < renders l1) →
  0 < renders l →
  ∀ l1 k l2, l ++ [lifecycle k' c_init] = l1 ++ lifecycle k c_init :: l2 →
             0 < renders l1.
Proof.
  intros Hl Hr l1 k l2 Heq.
  apply app_eq_app in Heq as (m & [(Hm1 & Hm2) | (Hm1 & Hm2)]).
  - destruct m as [|y m].
    + rewrite app_nil_r in Hm1. subst l1. exact Hr.
    + simpl in Hm2. injection Hm2 as <- _. exact (Hl _ _ _ Hm1).
  - destruct m as [|y m].
    + rewrite app_nil_r in Hm1. subst l1. exact Hr.
    + simpl in Hm2. injection Hm2 as _ Hm2. destruct m; discriminate Hm2.
Qed.

(** A chain is past its first reaction only after a render, and every call
    of [init] in the log comes after a render. *)
Lemma ordered_step (i : base_input) (this : Base S) :
  (∀ k, chains this !! k = Some Then2Queued → 0 < renders (log this))
  ∧ (∀ l1 k l2, log this = l1 ++ lifecycle k c_init :: l2 → 0 < renders l1) →
  (∀ k, chains (exec (base_step cls i) this) !! k = Some Then2Queued →
        0 < renders (log (exec (base_step cls i) this)))
  ∧ (∀ l1 k l2, log (exec (base_step cls i) this)
                = l1 ++ lifecycle k c_init :: l2 → 0 < renders l1).
Proof.
  intros (Hc & Hl). destruct i as [|k o|k| |r]; simpl.
  - unfold connectedCallback. unfold_monad. simpl. split.
    + intros k Hk. rewrite renders_app.
      apply lookup_app_Some in Hk as [Hk | [_ Hk]].
      * specialize (Hc k Hk). lia.
      * destruct (k - length (chains this)) as [|n]; simpl in Hk;
          [discriminate Hk | destruct n; discriminate Hk].
    + apply init_after_render_app; [exact Hl|].
      intros k. rewrite chain_calls_lifecycle. simpl.
      destruct (decide (length (chains this) = k)); simpl.
      * intros Hin. apply list_elem_of_singleton in Hin. discriminate Hin.
      * apply not_elem_of_nil.
  - rewrite settle_effect.
    destruct (chains this !! k) as [[| | | |e'|r]|] eqn:Hk, o as [|e];
      simpl; (split; [|exact Hl]); try exact Hc; intros k' Hk';
      apply list_lookup_insert_Some in Hk' as [(_ & Hk' & _) | (_ & Hk')];
      try discriminate Hk'; exact (Hc k' Hk').
  - destruct (chains this !! k) as [[| | | |e|r]|] eqn:Hk;
      try (rewrite microtask_idle by (rewrite Hk; congruence);
           split; [exact Hc | exact Hl]).
    + destruct (microtask_then1 this k Hk) as (l & -> & Hcalls & Hrend).
      simpl. split.
      * intros k' Hk'. rewrite renders_app.
        apply list_lookup_insert_Some in Hk' as [(_ & Hk' & _) | (_ & Hk')].
        -- destruct (render cls (with_CAN_RENDER true this)).2 as [u|e] eqn:Hr;
             [|discriminate Hk'].
           rewrite (Hrend u eq_refl). lia.
        -- specialize (Hc k' Hk'). lia.
      * apply init_after_render_app; [exact Hl|].
        intros k'. rewrite Hcalls. apply not_elem_of_nil.
    + rewrite microtask_then2 by exact Hk. simpl. split.
      * intros k' Hk'. rewrite renders_app. specialize (Hc k Hk). lia.
      * apply init_after_render_snoc; [exact Hl | exact (Hc k Hk)].
    + rewrite (microtask_catch _ _ e) by exact Hk. simpl. split.
      * intros k' Hk'. rewrite renders_app.
        apply list_lookup_insert_Some in Hk' as [(_ & Hk' & _) | (_ & Hk')];
          [discriminate Hk' | specialize (Hc k' Hk'); lia].
      * apply init_after_render_app; [exact Hl|].
        intros k'. rewrite chain_calls_lifecycle, chain_calls_outputs, app_nil_r.
        destruct (decide (k = k')); simpl.
        -- intros Hin. apply list_elem_of_singleton in Hin. discriminate Hin.
        -- apply not_elem_of_nil.
  - destruct (render_effect cls this) as (l & Hr & Hcalls & _). unfold exec.
    rewrite Hr. simpl. split.
    + intros k Hk. rewrite renders_app. specialize (Hc k Hk). lia.
    + apply init_after_render_app; [exact Hl|].
      intros k. rewrite Hcalls. apply not_elem_of_nil.
  - unfold_monad. simpl. split; [exact Hc | exact Hl].
Qed.

Lemma ordered_run (ins : list base_input) (this : Base S) :
  (∀ k, chains this !! k = Some Then2Queued → 0 < renders (log this))
  ∧ (∀ l1 k l2, log this = l1 ++ lifecycle k c_init :: l2 → 0 < renders l1) →
  ∀ l1 k l2, log (base_run cls ins this) = l1 ++ lifecycle k c_init :: l2 →
             0 < renders l1.
Proof.
  revert this. induction ins as [|i ins IH]; intros this Hinv.
  - exact (proj2 Hinv).
  - simpl. apply IH, ordered_step, Hinv.
Qed.

(** A step that is not addressed to chain [k] leaves that chain and its
    calls alone. *)
Lemma foreign_step (i : base_input) (this : Base S) (k : nat) :
  k < length (chains this) →
  (∀ o, i ≠ Settle k o) → i ≠ Microtask k →
  chains (exec (base_step cls i) this) !! k = chains this !! k
  ∧ chain_calls k (log (exec (base_step cls i) this))
    = chain_calls k (log this).
Proof.
  intros Hlt Hs Hm. destruct i as [|k' o|k'| |r]; simpl.
  - unfold connectedCallback. unfold_monad. simpl. split.
    + apply lookup_app_l, Hlt.
    + rewrite chain_calls_app, chain_calls_lifecycle.
      rewrite decide_False by lia. apply app_nil_r.
  - assert (k' ≠ k) by (intros ->; exact (Hs o eq_refl)).
    rewrite settle_effect.
    destruct (chains this !! k') as [[| | | |e'|r]|], o as [|e]; simpl;
      split; try reflexivity; apply list_lookup_insert_ne; assumption.
  - assert (Hne : k' ≠ k) by congruence.
    destruct (chains this !! k') as [[| | | |e|r]|] eqn:Hk;
      try (rewrite microtask_idle by (rewrite Hk; congruence);
           split; reflexivity).
    + destruct (microtask_then1 this k' Hk) as (l & -> & Hcalls & _). simpl.
      split; [apply list_lookup_insert_ne, Hne|].
      rewrite chain_calls_app, Hcalls. apply app_nil_r.
    + rewrite microtask_then2 by exact Hk. simpl.
      split; [apply list_lookup_insert_ne, Hne|].
      rewrite chain_calls_app, chain_calls_lifecycle.
      rewrite decide_False by exact Hne. apply app_nil_r.
    + rewrite (microtask_catch _ _ e) by exact Hk. simpl.
      split; [apply list_lookup_insert_ne, Hne|].
      rewrite chain_calls_app, chain_calls_lifecycle, chain_calls_outputs.
      rewrite decide_False by exact Hne. apply app_nil_r.
  - destruct (render_effect cls this) as (l & Hl & Hcalls & _). unfold exec.
    rewrite Hl. simpl. split; [reflexivity|].
    rewrite chain_calls_app, Hcalls. apply app_nil_r.
  - unfold_monad. simpl. split; reflexivity.
Qed.

(** Once the chain has settled nothing more comes from it. *)
Lemma settled_step (i : base_input) (this : Base S) (k : nat)
    (r : completion unit) :
  chains this !! k = Some (Settled r) →
  chains (exec (base_step cls i) this) !! k = Some (Settled r)
  ∧ chain_calls k (log (exec (base_step cls i) this))
    = chain_calls k (log this).
Proof.
  intros Hk. assert (Hlt : k < length (chains this))
    by (apply lookup_lt_is_Some; eauto).
  destruct (decide (i = Microtask k)) as [-> | Hm].
  { simpl. rewrite microtask_idle by (rewrite Hk; congruence). auto. }
  destruct i as [|k' o|k'| |sh];
    try (rewrite <- Hk; apply foreign_step; [exact Hlt | congruence | exact Hm]).
  destruct (decide (k' = k)) as [-> | Hne].
  - simpl. rewrite settle_effect, Hk. destruct o; auto.
  - rewrite <- Hk. apply foreign_step; [exact Hlt | congruence | exact Hm].
Qed.

(** A rejection waits for the catch reaction; when that runs,
    [setupError] is called with the reason and the chain settles with what
    [setupError] does. *)
Lemma catch_queued_step (i : base_input) (this : Base S) (k : nat) (e : exn) :
  chains this !! k = Some (CatchQueued e) →
  (i = Microtask k
   ∧ chains (exec (base_step cls i) this) !! k
     = Some (Settled (setupError cls this e).2)
   ∧ chain_calls k (log (exec (base_step cls i) this))
     = chain_calls k (log this) ++ [c_setupError e])
  ∨ (i ≠ Microtask k
     ∧ chains (exec (base_step cls i) this) !! k = Some (CatchQueued e)
     ∧ chain_calls k (log (exec (base_step cls i) this))
       = chain_calls k (log this)).
Proof.
  intros Hk. assert (Hlt : k < length (chains this))
    by (apply lookup_lt_is_Some; eauto).
  destruct (decide (i = Microtask k)) as [-> | Hm]; [left | right].
  - split; [reflexivity|]. simpl. rewrite (microtask_catch _ _ e) by exact Hk.
    simpl. split.
    + apply list_lookup_insert_eq, Hlt.
    + rewrite chain_calls_app, chain_calls_lifecycle, chain_calls_outputs.
      rewrite decide_True by reflexivity. reflexivity.
  - split; [exact Hm|].
    destruct i as [|k' o|k'| |sh];
      try (rewrite <- Hk; apply foreign_step; [exact Hlt | congruence | exact Hm]).
    destruct (decide (k' = k)) as [-> | Hne].
    + simpl. rewrite settle_effect, Hk. destruct o; auto.
    + rewrite <- Hk. apply foreign_step; [exact Hlt | congruence | exact Hm].
Qed.

Lemma settled_run (ins : list base_input) (this : Base S) (k : nat)
    (r : completion unit) :
  chains this !! k = Some (Settled r) →
  chains (base_run cls ins this) !! k = Some (Settled r)
  ∧ chain_calls k (log (base_run cls ins this)) = chain_calls k (log this).
Proof.
  revert this. induction ins as [|i ins IH]; intros this Hk; [auto|].
  simpl. destruct (settled_step i this k r Hk) as (Hk' & Hc').
  rewrite <- Hc'. apply IH, Hk'.
Qed.

(** After a rejection: [setupError] is called at most once, with the
    reason, and exactly once as soon as the catch reaction has run. *)
Lemma catch_queued_run (ins : list base_input) (this : Base S) (k : nat)
    (e : exn) :
  chains this !! k = Some (CatchQueued e) →
  (chains (base_run cls ins this) !! k = Some (CatchQueued e)
   ∧ chain_calls k (log (base_run cls ins this)) = chain_calls k (log this)
   ∧ ¬ In (Microtask k) ins)
  ∨ (∃ t, chains (base_run cls ins this) !! k
          = Some (Settled (setupError cls t e).2)
        ∧ chain_calls k (log (base_run cls ins this))
          = chain_calls k (log this) ++ [c_setupError e]).
Proof.
  revert this. induction ins as [|i ins IH]; intros this Hk.
  - left. simpl. auto.
  - simpl. destruct (catch_queued_step i this k e Hk)
      as [(-> & Hk' & Hc') | (Hne & Hk' & Hc')].
    + right. exists this.
      destruct (settled_run ins _ k _ Hk') as (Hk'' & Hc'').
      rewrite Hc'', Hc'. auto.
    + destruct (IH _ Hk') as [(Hk'' & Hc'' & Hnin) | (t & Hk'' & Hc'')].
      * left. rewrite Hc'', Hc'. repeat split; auto.
        intros [Heq | Hin]; [exact (Hne Heq) | exact (Hnin Hin)].
      * right. exists t. rewrite Hc'', Hc'. auto.
Qed.

(** With every chain rejected or settled and no further connection,
    rendering stays disabled for good. *)
Lemma dead_step (i : base_input) (this : Base S) :
  i ≠ Connect →
  ___CAN_RENDER___ this = false
  ∧ (∀ k c, chains this !! k = Some c →
            (∃ e, c = CatchQueued e) ∨ (∃ r, c = Settled r)) →
  ___CAN_RENDER___ (exec (base_step cls i) this) = false
  ∧ renders (log (exec (base_step cls i) this)) = renders (log this)
  ∧ (∀ k c, chains (exec (base_step cls i) this) !! k = Some c →
            (∃ e, c = CatchQueued e) ∨ (∃ r, c = Settled r)).
Proof.
  intros Hi (Hf & Hd). destruct i as [|k o|k| |r]; simpl.
  - destruct Hi. reflexivity.
  - rewrite settle_effect.
    destruct (chains this !! k) as [c|] eqn:Hk; [|destruct o; auto].
    destruct (Hd k c Hk) as [(e & ->) | (r & ->)]; destruct o; auto.
  - destruct (chains this !! k) as [c|] eqn:Hk;
      [|rewrite microtask_idle by (rewrite Hk; congruence); auto].
    destruct (Hd k c Hk) as [(e & ->) | (r & ->)];
      [|rewrite microtask_idle by (rewrite Hk; congruence); auto].
    rewrite (microtask_catch _ _ e) by exact Hk. simpl.
    split; [exact Hf|]. split.
    + rewrite renders_app, renders_lifecycle_call. lia.
    + intros k' c Hk'.
      apply list_lookup_insert_Some in Hk' as [(_ & <- & _) | (_ & Hk')];
        [right; eauto | exact (Hd k' c Hk')].
  - rewrite render_disabled by exact Hf. auto.
  - unfold_monad. simpl. auto.
Qed.

Lemma dead_run (ins : list base_input) (this : Base S) :
  no_connect ins = true →
  ___CAN_RENDER___ this = false
  ∧ (∀ k c, chains this !! k = Some c →
            (∃ e, c = CatchQueued e) ∨ (∃ r, c = Settled r)) →
  ___CAN_RENDER___ (base_run cls ins this) = false
  ∧ renders (log (base_run cls ins this)) = renders (log this).
Proof.
  revert this. induction ins as [|i ins IH]; intros this Hins Hd; [tauto|].
  simpl in Hins. apply andb_true_iff in Hins as [Hi Hins]. simpl.
  assert (Hne : i ≠ Connect) by (intros ->; discriminate Hi).
  destruct (dead_step i this Hne Hd) as (Hf' & Hr' & Hd').
  rewrite <- Hr'. apply (IH _ Hins). auto.
Qed.
End Lifecycle.

(** C2. On an instance fresh from the constructor, whatever happens to it
    (connections, settling promises, reactions, calls of [render],
    assignments of [shadow]):
    - as long as no hook's promise has been fulfilled, the flag is false and
      lit-html's [render] has not been called, even when [render()] was;
    - when the promise of [pre] is fulfilled nothing happens yet, and when
      the reaction then runs the flag is true, the template is rendered (if
      [template] returns, as the default does) and only then is the reaction
      that calls [init] queued; it logs the call of [init] when it runs;
    - once true, the flag stays true;
    - every call of [init] in the log comes after a call of lit-html's
      [render]. *)
Theorem render_waits_for_pre {S : Type} (cls : BaseMethods S)
    (element : Element.t) (s : S) (ins : list base_input) :
  let this := base_run cls ins (Base_constructor element s) in
  (no_hook_fulfilled ins = true →
   ___CAN_RENDER___ this = false ∧ renders (log this) = 0)
  ∧ (∀ k, chains this !! k = Some PrePending →
       let settled := exec (settle k Fulfilled) this in
       let reacted := exec (microtask cls k) settled in
       ___CAN_RENDER___ settled = ___CAN_RENDER___ this
       ∧ log settled = log this
       ∧ ___CAN_RENDER___ reacted = true
       ∧ ∀ t, (template cls (with_CAN_RENDER true settled)).2 = Normal t →
           log reacted
           = log this
             ++ (call c_template
                 :: map out (template cls (with_CAN_RENDER true settled)).1)
             ++ [lit_render t
                   match shadow this with
                   | Some r => ShadowRoot r
                   | None => HostElement (Element.id (self this))
                   end]
           ∧ chains reacted !! k = Some Then2Queued
           ∧ log (exec (microtask cls k) reacted)
             = log reacted ++ [lifecycle k c_init])
  ∧ (∀ ins', ___CAN_RENDER___ this = true →
             ___CAN_RENDER___ (base_run cls ins' this) = true)
  ∧ (∀ l1 k l2, log this = l1 ++ lifecycle k c_init :: l2 → 0 < renders l1).
Proof.
  intros this. split; [|split; [|split]].
  - intros Hins. apply (quiet_run cls ins _ Hins). simpl. repeat split.
    intros k Hk. discriminate Hk.
  - intros k Hk settled reacted.
    assert (Hlt : k < length (chains this)) by (apply lookup_lt_is_Some; eauto).
    assert (Hs : settled = with_chains (<[k := Then1Queued]> (chains this)) this).
    { unfold settled. rewrite settle_effect, Hk. reflexivity. }
    assert (Hk1 : chains settled !! k = Some Then1Queued).
    { rewrite Hs. simpl. apply list_lookup_insert_eq, Hlt. }
    split; [rewrite Hs; reflexivity|]. split; [rewrite Hs; reflexivity|].
    unfold reacted. rewrite (microtask_then1_eq cls settled k Hk1).
    rewrite (render_on cls (with_CAN_RENDER true settled) eq_refl).
    split.
    + destruct (template cls (with_CAN_RENDER true settled)).2; reflexivity.
    + intros t Ht. rewrite Ht. simpl.
      assert (Hk2 : <[k := Then2Queued]> (chains settled) !! k = Some Then2Queued).
      { apply list_lookup_insert_eq. rewrite Hs. simpl.
        rewrite length_insert. exact Hlt. }
      split; [rewrite Hs; reflexivity|]. split; [exact Hk2|].
      rewrite microtask_then2 by exact Hk2. reflexivity.
  - intros ins'. apply enabled_run.
  - apply (ordered_run cls ins). simpl. split.
    + intros k Hk. discriminate Hk.
    + intros l1 k l2 Hl. destruct l1; discriminate Hl.
Qed.

Lemma render_waits_for_pre_witness :
  let this := base_run Base_methods [Connect; CallRender; SetShadow (Some 4)]
                (Base_constructor the_component tt) in
  (___CAN_RENDER___ this = false ∧ renders (log this) = 0)
  ∧ ___CAN_RENDER___
      (exec (microtask Base_methods 0) (exec (settle 0 Fulfilled) this)) = true
  ∧ log (exec (microtask Base_methods 0) (exec (settle 0 Fulfilled) this))
    = [lifecycle 0 c_pre; call c_template;
       out (console_warn "There is not template defined.");
       lit_render (html [""] []) (ShadowRoot 4)].
Proof.
  pose proof (render_waits_for_pre Base_methods the_component tt
                [Connect; CallRender; SetShadow (Some 4)]) as (Hq & Hp & _).
  split; [exact (Hq eq_refl)|].
  destruct (Hp 0 eq_refl) as (_ & _ & Hf & Hr).
  split; [exact Hf|].
  exact (proj1 (Hr (html [""] []) eq_refl)).
Defined.

(** C3. The promise of [pre] or of [init] of connection [k] is rejected
    with reason [e]; afterwards anything may happen. The rejection itself
    changes neither the log nor the flag. From then on the chain only waits
    for its catch reaction, having made no call; once that reaction has run,
    the chain has made exactly one more call, [setupError(e)], and has
    settled with whatever [setupError] did, and it never calls anything
    again: no [init] after a rejected [pre], no second [setupError]. When
    the rejected promise is that of [pre] of the only connection, the flag
    stays false and lit-html's [render] is never called. The default
    [setupError] logs the reason and returns, so the chain is fulfilled. *)
Theorem hook_rejection_reaches_setupError_once {S : Type} (cls : BaseMethods S)
    (this : Base S) (k : nat) (e : exn) (ins : list base_input) :
  chains this !! k = Some PrePending ∨ chains this !! k = Some InitPending →
  let rejected := exec (settle k (Rejected e)) this in
  let final := base_run cls ins rejected in
  log rejected = log this
  ∧ ___CAN_RENDER___ rejected = ___CAN_RENDER___ this
  ∧ ((chains final !! k = Some (CatchQueued e)
      ∧ chain_calls k (log final) = chain_calls k (log this)
      ∧ ¬ In (Microtask k) ins)
     ∨ (∃ t, chains final !! k = Some (Settled (setupError cls t e).2)
             ∧ chain_calls k (log final)
               = chain_calls k (log this) ++ [c_setupError e]))
  ∧ (chains this = [PrePending] → ___CAN_RENDER___ this = false →
     no_connect ins = true →
     ___CAN_RENDER___ final = false ∧ renders (log final) = renders (log this))
  ∧ (∀ t : Base S,
       Base_setupError t e
       = ([console_error "Unhandled setup error" e], Normal tt)).
Proof.
  intros Hk rejected final.
  assert (Hlt : k < length (chains this))
    by (apply lookup_lt_is_Some; destruct Hk; eauto).
  assert (Hr : rejected = with_chains (<[k := CatchQueued e]> (chains this)) this).
  { unfold rejected. rewrite settle_effect. destruct Hk as [-> | ->]; reflexivity. }
  assert (Hkr : chains rejected !! k = Some (CatchQueued e)).
  { rewrite Hr. simpl. apply list_lookup_insert_eq, Hlt. }
  split; [rewrite Hr; reflexivity|]. split; [rewrite Hr; reflexivity|].
  split; [|split; [|reflexivity]].
  - assert (Hlog : log rejected = log this) by (rewrite Hr; reflexivity).
    rewrite <- Hlog. exact (catch_queued_run cls ins rejected k e Hkr).
  - intros Hone Hf Hins.
    assert (Hlog : log rejected = log this) by (rewrite Hr; reflexivity).
    rewrite <- Hlog. apply (dead_run cls ins rejected Hins).
    rewrite Hr. simpl. split; [exact Hf|].
    intros k' c Hk'. rewrite Hone in Hk', Hlt. simpl in Hlt.
    assert (k = 0) as -> by lia. destruct k'; simpl in Hk'.
    + injection Hk' as <-. left. eauto.
    + discriminate Hk'.
Qed.

Lemma hook_rejection_reaches_setupError_once_witness :
  let this := exec connectedCallback (Base_constructor the_component tt) in
  let e := Thrown (VString "offline") in
  let ins := [CallRender; Microtask 0; Settle 0 Fulfilled; Microtask 0] in
  let rejected := exec (settle 0 (Rejected e)) this in
  let final := base_run Base_methods ins rejected in
  log rejected = log this
  ∧ ___CAN_RENDER___ rejected = ___CAN_RENDER___ this
  ∧ ((chains final !! 0 = Some (CatchQueued e)
      ∧ chain_calls 0 (log final) = chain_calls 0 (log this)
      ∧ ¬ In (Microtask 0) ins)
     ∨ (∃ t : Base unit,
          chains final !! 0 = Some (Settled (setupError Base_methods t e).2)
             ∧ chain_calls 0 (log final)
               = chain_calls 0 (log this) ++ [c_setupError e]))
  ∧ (chains this = [PrePending] → ___CAN_RENDER___ this = false →
     no_connect ins = true →
     ___CAN_RENDER___ final = false ∧ renders (log final) = renders (log this))
  ∧ (∀ t : Base unit,
       Base_setupError t e
       = ([console_error "Unhandled setup error" e], Normal tt)).
Proof.
  exact (hook_rejection_reaches_setupError_once Base_methods
           (exec connectedCallback (Base_constructor the_component tt)) 0
           (Thrown (VString "offline"))
           [CallRender; Microtask 0; Settle 0 Fulfilled; Microtask 0]
           (or_introl eq_refl)).
Defined.

Example default_hooks_run :
  log (base_run Base_methods
         [Connect; Settle 0 Base_pre; Microtask 0; Microtask 0;
          Settle 0 Base_init; Microtask 0]
         (Base_constructor the_component tt))
  = [lifecycle 0 c_pre; call c_template;
     out (console_warn "There is not template defined.");
     lit_render (html [""] []) (HostElement 0); lifecycle 0 c_init]
  ∧ chains (base_run Base_methods
              [Connect; Settle 0 Base_pre; Microtask 0; Microtask 0;
               Settle 0 Base_init; Microtask 0]
              (Base_constructor the_component tt))
    = [Settled (Normal tt)].
Proof. split; reflexivity. Qed.

Example rejected_pre_run :
  log (base_run Base_methods
         [Connect; Settle 0 (Rejected (Thrown VNull)); CallRender; Microtask 0;
          Microtask 0]
         (Base_constructor the_component tt))
  = [lifecycle 0 c_pre; lifecycle 0 (c_setupError (Thrown VNull));
     out (console_error "Unhandled setup error" (Thrown VNull))].
Proof. reflexivity. Qed.

Example rejected_init_run :
  log (base_run Base_methods
         [Connect; Settle 0 Fulfilled; Microtask 0; Microtask 0;
          Settle 0 (Rejected (Thrown VNull)); Microtask 0; Microtask 0]
         (Base_constructor the_component tt))
  = [lifecycle 0 c_pre; call c_template;
     out (console_warn "There is not template defined.");
     lit_render (html [""] []) (HostElement 0); lifecycle 0 c_init;
     lifecycle 0 (c_setupError (Thrown VNull));
     out (console_error "Unhandled setup error" (Thrown VNull))].
Proof. reflexivity. Qed.

(** ** Runs of a [FormBase] *)

Section BaseFrame.
Context {S : Type} (cls : BaseMethods S).

(** The inherited operations never touch what the subclass adds. *)
Lemma base_step_sub (i : base_input) (this : Base S) :
  sub (exec (base_step cls i) this) = sub this.
Proof.
  destruct i as [|k o|k| |r]; simpl.
  - reflexivity.
  - rewrite settle_effect.
    destruct (chains this !! k) as [[| | | |e'|r]|], o; reflexivity.
  - destruct (chains this !! k) as [[| | | |e|r]|] eqn:Hk;
      try (rewrite microtask_idle by (rewrite Hk; congruence); reflexivity).
    + destruct (microtask_then1 cls this k Hk) as (l & -> & _). reflexivity.
    + rewrite microtask_then2 by exact Hk. reflexivity.
    + rewrite (microtask_catch _ _ _ e) by exact Hk. reflexivity.
  - destruct (render_effect cls this) as (l & Hl & _). unfold exec.
    rewrite Hl. reflexivity.
  - reflexivity.
Qed.

End BaseFrame.

Section FormFrame.
Variable cls : FormMethods.

(** The listener writes to the heap and arms a timer; the backing
    reference, the flag, the chains and the log stay as they are, and so does
    every object other than the backing one. *)
Lemma handler_frame (evt : Event.t) (this : FormBase) :
  log (exec (handler evt) this) = log this
  ∧ ___CAN_RENDER___ (exec (handler evt) this) = ___CAN_RENDER___ this
  ∧ chains (exec (handler evt) this) = chains this
  ∧ _data (sub (exec (handler evt) this)) = _data (sub this)
  ∧ (∀ l, _data (sub this) ≠ VObject l → _data (sub this) ≠ VFunction l →
          heap (sub (exec (handler evt) this)) !! l = heap (sub this) !! l).
Proof.
  destruct this as [el fl sh ch lg [d db hp ts nw nx]].
  unfold handler, get_data, setTimeout, put_property. unfold_monad. simpl.
  destruct (Event.target evt) as [target|]; simpl; [|auto].
  destruct (bool_decide _ || _); simpl; [auto|].
  destruct (String.eqb _ "checkbox"), d; simpl;
    repeat match goal with
           | |- context [inherits_setter ?o ?k] => destruct (inherits_setter o k)
           | |- context [String.eqb ?k "__proto__"] =>
               destruct (String.eqb k "__proto__")
           end; simpl; repeat split; auto;
    intros l' H1 H2; apply lookup_insert_ne; congruence.
Qed.


Lemma listener_frame (evt : Event.t) (this : FormBase) :
  log (exec (listener evt) this) = log this
  ∧ ___CAN_RENDER___ (exec (listener evt) this) = ___CAN_RENDER___ this
  ∧ chains (exec (listener evt) this) = chains this
  ∧ _data (sub (exec (listener evt) this)) = _data (sub this)
  ∧ (∀ l, _data (sub this) ≠ VObject l → _data (sub this) ≠ VFunction l →
          heap (sub (exec (listener evt) this)) !! l = heap (sub this) !! l).
Proof.
  unfold listener. destruct (_ || _); [apply handler_frame|].
  repeat split; auto.
Qed.

(** Firing timers calls [handleChange], which only produces outputs. *)
Lemma fire_due_frame (fuel limit : nat) (this : FormBase) :
  ∃ l, log (exec (fire_due cls fuel limit) this) = log this ++ l
       ∧ renders l = 0
       ∧ (∀ k, chain_calls k l = [])
       ∧ ___CAN_RENDER___ (exec (fire_due cls fuel limit) this)
         = ___CAN_RENDER___ this
       ∧ chains (exec (fire_due cls fuel limit) this) = chains this
       ∧ _data (sub (exec (fire_due cls fuel limit) this)) = _data (sub this)
       ∧ heap (sub (exec (fire_due cls fuel limit) this)) = heap (sub this).
Proof.
  revert this. induction fuel as [|fuel IH]; intros this.
  - exists []. simpl. rewrite app_nil_r. repeat split; auto.
  - simpl. unfold_monad. simpl.
    destruct (earliest (timers (sub this))) as [t|];
      [|exists []; simpl; rewrite app_nil_r; repeat split; auto].
    destruct (deadline t <=? limit);
      [|exists []; simpl; rewrite app_nil_r; repeat split; auto].
    simpl. unfold timeout_callback, call_handleChange, clearTimeout.
    unfold_monad. simpl.
    match goal with
    | |- context [fire_due cls fuel limit ?w] =>
        destruct (IH w) as (l & Hl & Hr & Hc & Hf & Hch & Hd & Hh);
        set (this' := w) in *
    end.
    assert (Hshape :
      ∃ os evt, log this' = log this ++ call (c_handleChange evt) :: map out os
                ∧ ___CAN_RENDER___ this' = ___CAN_RENDER___ this
                ∧ chains this' = chains this
                ∧ _data (sub this') = _data (sub this)
                ∧ heap (sub this') = heap (sub this)).
    { unfold this'. destruct (debounceTimeout (sub this)); simpl;
        do 2 eexists; repeat split; reflexivity. }
    destruct Hshape as (os & evt & Hl' & Hf' & Hch' & Hd' & Hh').
    exists ((call (c_handleChange evt) :: map out os) ++ l).
    rewrite Hl, Hl', Hf, Hf', Hch, Hch', Hd, Hd', Hh, Hh'.
    rewrite <- app_assoc. repeat split; auto.
    + rewrite renders_app, renders_method_call, Hr. reflexivity.
    + intros k. rewrite chain_calls_app, Hc. simpl.
      unfold chain_calls at 1. simpl.
      fold (chain_calls k (map out os)). rewrite chain_calls_outputs.
      reflexivity.
Qed.

Lemma elapse_frame (ms : nat) (this : FormBase) :
  ∃ l, log (exec (elapse cls ms) this) = log this ++ l
       ∧ renders l = 0
       ∧ (∀ k, chain_calls k l = [])
       ∧ ___CAN_RENDER___ (exec (elapse cls ms) this) = ___CAN_RENDER___ this
       ∧ chains (exec (elapse cls ms) this) = chains this
       ∧ _data (sub (exec (elapse cls ms) this)) = _data (sub this)
       ∧ heap (sub (exec (elapse cls ms) this)) = heap (sub this).
Proof.
  destruct (fire_due_frame (length (timers (sub this))) (now (sub this) + ms) this)
    as (l & Hl & Hr & Hc & Hf & Hch & Hd & Hh).
  exists l. unfold elapse. unfold_monad. simpl.
  destruct (fire_due cls _ _ this) as [w [[]|e]]; simpl in *; auto 10.
Qed.

(** The backing reference is only ever replaced by the setter, and the
    setter only admits values whose [typeof] is ["object"]. *)
Lemma form_step_data (i : form_input) (this : FormBase) :
  typeof (_data (sub this)) = "object" →
  typeof (_data (sub (exec (form_step cls i) this))) = "object".
Proof.
  intros Hty. destruct i as [i|v|evt|ms]; simpl.
  - rewrite base_step_sub. exact Hty.
  - destruct (String.eqb_spec (typeof v) "object") as [Hv|Hv].
    + destruct (set_data_effect cls this v Hv) as (l & Hl & _).
      unfold exec. rewrite Hl. exact Hv.
    + unfold exec. rewrite (set_data_rejected cls this v Hv). exact Hty.
  - destruct (listener_frame evt this) as (_ & _ & _ & -> & _). exact Hty.
  - destruct (elapse_frame ms this) as (l & _ & _ & _ & _ & _ & -> & _).
    exact Hty.
Qed.

Lemma data_is_object_or_null (ins : list form_input) (element : Element.t)
    (h : gmap loc (gmap string JSValue)) :
  _data (sub (form_run cls ins (FormBase_constructor element h))) = VNull
  ∨ ∃ l, _data (sub (form_run cls ins (FormBase_constructor element h)))
         = VObject l.
Proof.
  assert (Hty : typeof (_data (sub (form_run cls ins
                                      (FormBase_constructor element h))))
                = "object").
  { generalize (FormBase_constructor element h),
      (eq_refl : typeof (_data (sub (FormBase_constructor element h))) = "object").
    induction ins as [|i ins IH]; intros this Hty; [exact Hty|].
    simpl. apply IH, form_step_data, Hty. }
  destruct (_data _); try discriminate Hty; eauto.
Qed.
End FormFrame.



(** ** The timer of the listener *)

Section Burst.
Variable cls : FormMethods.

Lemma handleChange_calls_app (l1 l2 : list effect) :
  handleChange_calls (l1 ++ l2) = handleChange_calls l1 ++ handleChange_calls l2.
Proof. apply omap_app. Qed.

Lemma handleChange_calls_call (evt : Event.t) (os : list output) :
  handleChange_calls (call (c_handleChange evt) :: map out os) = [evt].
Proof.
  unfold handleChange_calls. simpl. f_equal.
  induction os as [|o os IH]; [reflexivity | exact IH].
Qed.

(** What the listener makes of an event it does not ignore. *)
Lemma listener_qualifying (evt : Event.t) (this : FormBase) (l : loc) :
  qualifies (self this) evt = true →
  _data (sub this) = VObject l →
  ∃ h,
    exec (listener evt) this
    = with_sub
        (mkForm (VObject l) (Some (next_handle (sub this))) h
           (timers (sub this)
            ++ [mkTimer (next_handle (sub this)) (now (sub this) + 10) evt])
           (now (sub this)) (Datatypes.S (next_handle (sub this))))
        this.
Proof.
  unfold qualifies, listener. intros Hq Hd.
  apply andb_true_iff in Hq as [-> Hq].
  destruct (Event.target evt) as [target|] eqn:Htg; [|discriminate Hq].
  unfold handler, get_data, setTimeout, put_property. unfold_monad. simpl.
  rewrite Htg. apply negb_true_iff in Hq. simpl in Hq. rewrite Hq. simpl.
  destruct this as [el fl sh ch lg [d db hp ts nw nx]]. simpl in *. subst d.
  destruct (String.eqb (Element.type target) "checkbox"); simpl;
    destruct (inherits_setter _ _); simpl; eexists; reflexivity.
Qed.

(** A run of qualifying events with no time in between arms one timer per
    event and clears none. *)
Lemma dispatch_burst (evts : list Event.t) (this : FormBase) (l : loc) :
  forallb (qualifies (self this)) evts = true →
  _data (sub this) = VObject l →
  ∃ h d,
    form_run cls (map Dispatch evts) this
    = with_sub
        (mkForm (VObject l) d h
           (timers (sub this)
            ++ armed (next_handle (sub this)) (now (sub this) + 10) evts)
           (now (sub this)) (next_handle (sub this) + length evts))
        this.
Proof.
  revert this. induction evts as [|e evts IH]; intros this Hq Hd.
  - exists (heap (sub this)), (debounceTimeout (sub this)). simpl.
    rewrite app_nil_r, Nat.add_0_r.
    destruct this as [el fl sh ch lg [d db hp ts nw nx]]. simpl in *.
    subst d. reflexivity.
  - simpl in Hq. apply andb_true_iff in Hq as [He Hq]. simpl.
    destruct (listener_qualifying e this l He Hd) as (h1 & ->).
    match goal with
    | |- context [form_run cls _ ?w] =>
        destruct (IH w Hq eq_refl) as (h2 & d2 & ->)
    end.
    exists h2, d2. cbn -[Nat.add]. rewrite <- app_assoc.
    rewrite (Nat.add_succ_r (next_handle (sub this))). reflexivity.
Qed.

Lemma earliest_same_deadline (t : timer) (ts : list timer) :
  Forall (λ u, deadline u = deadline t) ts → earliest (t :: ts) = Some t.
Proof.
  revert t. induction ts as [|u ts IH]; intros t Hall; [reflexivity|].
  inversion Hall as [|? ? Hu Hts]; subst.
  change (earliest (t :: u :: ts))
    with (match earliest (u :: ts) with
          | Some v => if deadline v <? deadline t then Some v else Some t
          | None => Some t
          end).
  rewrite IH.
  - rewrite Hu, Nat.ltb_irrefl. reflexivity.
  - eapply Forall_impl; [exact Hts|]. simpl. intros v Hv. congruence.
Qed.

Lemma filter_other_handles (x : nat) (ts : list timer) :
  x ∉ map handle ts → filter (λ u, handle u ≠ x) ts = ts.
Proof.
  induction ts as [|u ts IH]; intros Hx; [reflexivity|].
  simpl in Hx. apply not_elem_of_cons in Hx as [Hne Hx].
  rewrite filter_cons_True by congruence. rewrite IH by exact Hx. reflexivity.
Qed.

Lemma armed_handles (n d : nat) (evts : list Event.t) :
  map handle (armed n d evts) = seq n (length evts).
Proof.
  revert n. induction evts as [|e evts IH]; intros n; [reflexivity|].
  simpl. rewrite IH. reflexivity.
Qed.

Lemma armed_deadlines (n d : nat) (evts : list Event.t) :
  Forall (λ u, deadline u = d) (armed n d evts).
Proof.
  revert n. induction evts as [|e evts IH]; intros n; constructor; auto.
Qed.

Lemma armed_captured (n d : nat) (evts : list Event.t) :
  map captured (armed n d evts) = evts.
Proof.
  revert n. induction evts as [|e evts IH]; intros n; [reflexivity|].
  simpl. rewrite IH. reflexivity.
Qed.

(** One firing: the timer leaves the list, the callback clears the handle
    held in [debounceTimeout] and calls [handleChange]. *)
Lemma fire_due_step (fuel limit : nat) (this : FormBase) (t : timer)
    (ts : list timer) (x : nat) :
  timers (sub this) = t :: ts →
  Forall (λ u, deadline u = deadline t) ts →
  deadline t ≤ limit →
  handle t ∉ map handle ts →
  debounceTimeout (sub this) = Some x →
  ∃ this',
    exec (fire_due cls (Datatypes.S fuel) limit) this
    = exec (fire_due cls fuel limit) this'
    ∧ timers (sub this') = filter (λ u, handle u ≠ x) ts
    ∧ debounceTimeout (sub this') = Some x
    ∧ handleChange_calls (log this')
      = handleChange_calls (log this) ++ [captured t].
Proof.
  intros Hts Hd Hlim Hnd Hx. simpl. unfold_monad. simpl.
  rewrite Hts, (earliest_same_deadline t ts Hd).
  apply Nat.leb_le in Hlim. rewrite Hlim. simpl.
  unfold timeout_callback, call_handleChange, clearTimeout. unfold_monad.
  simpl. rewrite Hx. simpl. rewrite Hts.
  rewrite filter_cons_False by (intros H; apply H; reflexivity).
  rewrite (filter_other_handles (handle t) ts Hnd).
  eexists. split; [reflexivity|]. simpl.
  rewrite Hx, handleChange_calls_app, handleChange_calls_call. auto.
Qed.

(** With the handle in [debounceTimeout] not among the pending timers, they
    all fire, in order. *)
Lemma fire_due_all (limit x : nat) (ts : list timer) :
  ∀ (fuel : nat) (this : FormBase) (d : nat),
    timers (sub this) = ts →
    Forall (λ u, deadline u = d) ts →
    d ≤ limit →
    NoDup (map handle ts) →
    debounceTimeout (sub this) = Some x →
    x ∉ map handle ts →
    length ts ≤ fuel →
    handleChange_calls (log (exec (fire_due cls fuel limit) this))
    = handleChange_calls (log this) ++ map captured ts.
Proof.
  induction ts as [|t ts IH]; intros fuel this d Hts Hd Hlim Hnd Hx Hnin Hfuel.
  - rewrite app_nil_r. destruct fuel as [|fuel]; [reflexivity|].
    simpl. unfold_monad. simpl. rewrite Hts. reflexivity.
  - destruct fuel as [|fuel]; [simpl in Hfuel; lia|].
    inversion Hd as [|? ? Ht Hd']; subst.
    simpl in Hnd. apply NoDup_cons in Hnd as [Hnt Hnd].
    simpl in Hnin. apply not_elem_of_cons in Hnin as [Hxt Hnin].
    destruct (fire_due_step fuel limit this t ts x Hts) as (w & -> & Hw & Hxw & Hc);
      auto.
    rewrite (filter_other_handles x ts Hnin) in Hw.
    rewrite (IH fuel w (deadline t)); auto.
    + rewrite Hc, <- app_assoc. reflexivity.
    + simpl in Hfuel. lia.
Qed.

Lemma form_run_app (ins ins' : list form_input) (this : FormBase) :
  form_run cls (ins ++ ins') this = form_run cls ins' (form_run cls ins this).
Proof. apply foldl_app. Qed.

Lemma elapse_log (ms : nat) (this : FormBase) :
  log (exec (elapse cls ms) this)
  = log (exec (fire_due cls (length (timers (sub this))) (now (sub this) + ms))
           this).
Proof.
  unfold elapse. unfold_monad. simpl.
  destruct (fire_due cls _ _ this) as [w [[]|e]]; reflexivity.
Qed.

(** The general shape of the defect. At least two qualifying events arrive
    with no timer pending and no time in between; then at least 10 ms pass.
    [handleChange] is called once for every event except the last one. *)
Lemma burst_calls_all_but_last (this : FormBase) (l : loc) (first : Event.t)
    (evts : list Event.t) (last : Event.t) (ms : nat) :
  timers (sub this) = [] →
  _data (sub this) = VObject l →
  forallb (qualifies (self this)) (first :: evts ++ [last]) = true →
  10 ≤ ms →
  handleChange_calls
    (log (form_run cls
            (map Dispatch (first :: evts ++ [last]) ++ [Elapse ms]) this))
  = handleChange_calls (log this) ++ first :: evts.
Proof.
  intros Hts Hd Hq Hms.
  change (first :: evts ++ [last]) with ((first :: evts) ++ [last]) in *.
  rewrite forallb_app in Hq. apply andb_true_iff in Hq as [Hq Hlast].
  simpl in Hlast. rewrite andb_true_r in Hlast.
  rewrite map_app, !form_run_app.
  destruct (dispatch_burst (first :: evts) this l Hq Hd) as (h & d & ->).
  rewrite Hts. change (form_run cls (map Dispatch [last]) ?w)
    with (exec (listener last) w).
  match goal with
  | |- context [exec (listener last) ?w] =>
      destruct (listener_qualifying last w l Hlast eq_refl) as (h' & ->)
  end.
  change (form_run cls [Elapse ms] ?w) with (exec (elapse cls ms) w).
  rewrite elapse_log. cbn -[Nat.add fire_due handleChange_calls].
  rewrite length_app, Nat.add_1_r.
  set (nx := next_handle (sub this)). set (d0 := now (sub this) + 10).
  match goal with
  | |- context [exec (fire_due cls _ _) ?w] =>
      destruct (fire_due_step (Datatypes.S (length (armed (Datatypes.S nx) d0 evts)))
                  (now (sub this) + ms) w (mkTimer nx d0 first)
                  (armed (Datatypes.S nx) d0 evts
                   ++ [mkTimer (nx + Datatypes.S (length evts)) d0 last])
                  (nx + Datatypes.S (length evts)))
        as (w' & Hfire & Hw' & Hx & Hcalls)
  end.
  - reflexivity.
  - apply Forall_app. split; [apply armed_deadlines|].
    constructor; [reflexivity | constructor].
  - unfold d0. simpl. lia.
  - rewrite map_app, armed_handles. simpl. intros Hin.
    apply elem_of_app in Hin as [Hin | Hin].
    + apply elem_of_seq in Hin. lia.
    + apply list_elem_of_singleton in Hin. lia.
  - reflexivity.
  - rewrite Hfire.
    rewrite filter_app in Hw'.
    rewrite (filter_other_handles _ (armed (Datatypes.S nx) d0 evts)) in Hw'
      by (rewrite armed_handles; intros Hin; apply elem_of_seq in Hin; lia).
    rewrite filter_cons_False in Hw' by (intros H; apply H; reflexivity).
    rewrite filter_nil, app_nil_r in Hw'.
    rewrite (fire_due_all (now (sub this) + ms) (nx + Datatypes.S (length evts))
               (armed (Datatypes.S nx) d0 evts) _ w' d0 Hw').
    + rewrite Hcalls, armed_captured, <- app_assoc. reflexivity.
    + apply armed_deadlines.
    + unfold d0. lia.
    + rewrite armed_handles. apply NoDup_seq.
    + exact Hx.
    + rewrite armed_handles. intros Hin. apply elem_of_seq in Hin. lia.
    + lia.
Qed.
End Burst.

(** C1, at the failing input. Five input events arrive one millisecond
    apart. No event clears the timer of the one before, so five timers are
    pending; the first to fire clears the newest one and every other one
    fires: [handleChange] is called four times, with the first four events,
    and never with the last. The data does hold the last value. *)
Theorem burst_of_five_calls_handleChange_four_times :
  length (timers (sub (form_run FormBase_methods (take 9 burst_of_five) fresh_form)))
  = 5
  ∧ handleChange_calls (log (form_run FormBase_methods burst_of_five fresh_form))
    = [input_event (title_input "H"); input_event (title_input "He");
       input_event (title_input "Hel"); input_event (title_input "Hell")]
  ∧ timers (sub (form_run FormBase_methods burst_of_five fresh_form)) = []
  ∧ property (form_run FormBase_methods burst_of_five fresh_form)
      (_data (sub (form_run FormBase_methods burst_of_five fresh_form))) "title"
    = Some (VString "Hello").
Proof. vm_compute. repeat split; reflexivity. Qed.

(** A single event does get exactly one call once 10 ms have passed, and
    none before. *)
Example single_event_calls_handleChange_once :
  handleChange_calls
    (log (form_run FormBase_methods
            [Dispatch (input_event (title_input "Hello")); Elapse 9] fresh_form))
  = []
  ∧ handleChange_calls
      (log (form_run FormBase_methods
              [Dispatch (input_event (title_input "Hello")); Elapse 9; Elapse 1]
              fresh_form))
    = [input_event (title_input "Hello")].
Proof. vm_compute. split; reflexivity. Qed.

(** Two events in a row: one call, but with the first event; the timer of
    the last one is the one that was cleared. *)
Example burst_of_two_reports_first_event :
  handleChange_calls
    (log (form_run FormBase_methods
            [Dispatch (input_event (title_input "H"));
             Dispatch (input_event (title_input "He")); Elapse 50] fresh_form))
  = [input_event (title_input "H")].
Proof. vm_compute. reflexivity. Qed.

(** * Further properties *)

(** ** The helper [popBubble] *)

Lemma ToBoolean_false (v : JSValue) :
  ToBoolean v = false
  ↔ v = VUndefined ∨ v = VNull ∨ v = VBoolean false
    ∨ v = VNumber NaN ∨ v = VNumber NegativeZero
    ∨ (∃ e, v = VNumber (Dyadic 0 e))
    ∨ v = VBigInt 0 ∨ v = VString "".
Proof.
  split.
  - destruct v as [| |b|[|neg| |m e]|s|k|n|l|l]; simpl; intros H; auto 10;
      try discriminate H.
    + destruct b; [discriminate H | auto 10].
    + apply negb_false_iff, Z.eqb_eq in H. subst. eauto 10.
    + apply negb_false_iff, String.eqb_eq in H. subst. auto 10.
    + apply negb_false_iff, Z.eqb_eq in H. subst. auto 10.
  - intros [-> | [-> | [-> | [-> | [-> | [(e & ->) | [-> | ->]]]]]]];
      reflexivity.
Qed.

(** X1. [popBubble] always calls [stopPropagation] and then
    [stopImmediatePropagation] on the event it is given and touches no other
    event; it calls [preventDefault], once and last, unless the flag is one
    of the falsy values: [undefined] (the flag omitted), [null], [false],
    [NaN], negative zero, zero, [0n] and the empty string. *)
Theorem popBubble_prevents_default_iff_truthy
    (evt : Event.t) (preventDefault_flag : JSValue) :
  (popBubble evt preventDefault_flag
   = [stopPropagation evt; stopImmediatePropagation evt; preventDefault evt]
   ∨ popBubble evt preventDefault_flag
     = [stopPropagation evt; stopImmediatePropagation evt])
  ∧ (In (preventDefault evt) (popBubble evt preventDefault_flag)
     ↔ ¬ (preventDefault_flag = VUndefined ∨ preventDefault_flag = VNull
          ∨ preventDefault_flag = VBoolean false
          ∨ preventDefault_flag = VNumber NaN
          ∨ preventDefault_flag = VNumber NegativeZero
          ∨ (∃ e, preventDefault_flag = VNumber (Dyadic 0 e))
          ∨ preventDefault_flag = VBigInt 0
          ∨ preventDefault_flag = VString "")).
Proof.
  unfold popBubble. rewrite <- ToBoolean_false.
  destruct (ToBoolean preventDefault_flag); simpl.
  - split; [left; reflexivity|]. split; [discriminate | auto].
  - split; [right; reflexivity|]. split.
    + intros [H | [H | []]]; discriminate H.
    + intros H. destruct H. reflexivity.
Qed.

(** ** The two listings of [render] *)

(** X2. The [render] with shadow support and the one without do exactly
    the same on an instance whose [shadow] is unset. With [shadow] set they
    differ, if at all, by the container alone: where the first patches the
    shadow root the second patches the element. *)
Theorem render_agrees_without_shadow {S : Type} (cls : BaseMethods S)
    (this : Base S) :
  (shadow this = None → render cls this = render_without_shadow cls this)
  ∧ (___CAN_RENDER___ this = false →
     render cls this = render_without_shadow cls this)
  ∧ (∀ r t, shadow this = Some r → ___CAN_RENDER___ this = true →
       (template cls this).2 = Normal t →
       ∃ l, log (exec (render cls) this) = l ++ [lit_render t (ShadowRoot r)]
            ∧ log (exec (render_without_shadow cls) this)
              = l ++ [lit_render t (HostElement (Element.id (self this)))]).
Proof.
  unfold render, render_without_shadow, call_template. unfold_monad. simpl.
  split; [|split].
  - intros ->. reflexivity.
  - intros ->. reflexivity.
  - intros r t -> -> Ht. rewrite Ht. simpl. eexists. split; reflexivity.
Qed.

Lemma render_agrees_without_shadow_witness :
  render Base_methods (with_CAN_RENDER true fresh_form)
  = render_without_shadow Base_methods (with_CAN_RENDER true fresh_form).
Proof.
  exact (proj1 (render_agrees_without_shadow Base_methods
                  (with_CAN_RENDER true fresh_form)) eq_refl).
Defined.

(** ** More on the lifecycle *)

Section LifecycleCalls.
Context {S : Type} (cls : BaseMethods S).

Lemma base_step_length (i : base_input) (this : Base S) :
  length (chains (exec (base_step cls i) this))
  = length (chains this) + (if decide (i = Connect) then 1 else 0).
Proof.
  destruct i as [|k o|k| |r]; simpl.
  - unfold connectedCallback. unfold_monad. simpl. apply length_app.
  - rewrite settle_effect.
    destruct (chains this !! k) as [[| | | |e'|r]|], o; simpl;
      rewrite ?length_insert; lia.
  - destruct (chains this !! k) as [[| | | |e|r]|] eqn:Hk;
      try (rewrite microtask_idle by (rewrite Hk; congruence); lia).
    + destruct (microtask_then1 cls this k Hk) as (l & -> & _). simpl.
      rewrite length_insert. lia.
    + rewrite microtask_then2 by exact Hk. simpl. rewrite length_insert. lia.
    + rewrite (microtask_catch _ _ _ e) by exact Hk. simpl.
      rewrite length_insert. lia.
  - destruct (render_effect cls this) as (l & Hl & _). unfold exec.
    rewrite Hl. simpl. lia.
  - simpl. lia.
Qed.

(** A connection that has not happened yet has called nothing. *)
Lemma unborn_step (i : base_input) (this : Base S) (k : nat) :
  length (chains this) ≤ k →
  (i = Connect → k ≠ length (chains this)) →
  chain_calls k (log (exec (base_step cls i) this)) = chain_calls k (log this).
Proof.
  intros Hk Hi. assert (Hnone : chains this !! k = None)
    by (apply lookup_ge_None; exact Hk).
  destruct i as [|k' o|k'| |r]; simpl.
  - unfold connectedCallback. unfold_monad. simpl.
    rewrite chain_calls_app, chain_calls_lifecycle.
    rewrite decide_False by (intros Heq; exact (Hi eq_refl (eq_sym Heq))).
    apply app_nil_r.
  - rewrite settle_effect.
    destruct (chains this !! k') as [[| | | |e'|r]|], o; reflexivity.
  - destruct (decide (k' = k)) as [-> | Hne].
    { rewrite microtask_idle by (rewrite Hnone; congruence). reflexivity. }
    destruct (chains this !! k') as [[| | | |e|r]|] eqn:Hk';
      try (rewrite microtask_idle by (rewrite Hk'; congruence); reflexivity).
    + destruct (microtask_then1 cls this k' Hk') as (l & -> & Hcalls & _).
      simpl. rewrite chain_calls_app, Hcalls. apply app_nil_r.
    + rewrite microtask_then2 by exact Hk'. simpl.
      rewrite chain_calls_app, chain_calls_lifecycle.
      rewrite decide_False by exact Hne. apply app_nil_r.
    + rewrite (microtask_catch _ _ _ e) by exact Hk'. simpl.
      rewrite chain_calls_app, chain_calls_lifecycle, chain_calls_outputs.
      rewrite decide_False by exact Hne. apply app_nil_r.
  - destruct (render_effect cls this) as (l & Hl & Hcalls & _). unfold exec.
    rewrite Hl. simpl. rewrite chain_calls_app, Hcalls. apply app_nil_r.
  - reflexivity.
Qed.

(** The calls of every chain fit its state, and no call is logged for a
    connection that has not happened. *)
Lemma calls_fit_step (i : base_input) (this : Base S) :
  (∀ k c, chains this !! k = Some c → calls_fit c (chain_calls k (log this)))
  ∧ (∀ k, length (chains this) ≤ k → chain_calls k (log this) = []) →
  (∀ k c, chains (exec (base_step cls i) this) !! k = Some c →
          calls_fit c (chain_calls k (log (exec (base_step cls i) this))))
  ∧ (∀ k, length (chains (exec (base_step cls i) this)) ≤ k →
          chain_calls k (log (exec (base_step cls i) this)) = []).
Proof.
  intros (Hfit & Hnil). split.
  - intros k c Hk.
    destruct (decide (k < length (chains this))) as [Hlt | Hge].
    + destruct (lookup_lt_is_Some_2 _ _ Hlt) as (c0 & Hk0).
      specialize (Hfit k c0 Hk0).
      destruct (decide (i = Microtask k)) as [-> | Hm].
      { simpl in *.
        destruct c0 as [| | | |e|r];
          try (rewrite microtask_idle in * by (rewrite Hk0; congruence);
               rewrite Hk0 in Hk; injection Hk as <-; exact Hfit).
        - destruct (microtask_then1 cls this k Hk0) as (l & Heq & Hcalls & _).
          rewrite Heq in *. simpl in *.
          rewrite list_lookup_insert_eq in Hk by exact Hlt. injection Hk as <-.
          rewrite chain_calls_app, Hcalls, app_nil_r.
          destruct (render cls _).2; simpl in *; auto.
        - rewrite microtask_then2 in * by exact Hk0. simpl in *.
          rewrite list_lookup_insert_eq in Hk by exact Hlt. injection Hk as <-.
          rewrite chain_calls_app, chain_calls_lifecycle.
          rewrite decide_True by reflexivity. simpl in *. rewrite Hfit.
          reflexivity.
        - rewrite (microtask_catch _ _ _ e) in * by exact Hk0. simpl in *.
          rewrite list_lookup_insert_eq in Hk by exact Hlt. injection Hk as <-.
          rewrite chain_calls_app, chain_calls_lifecycle, chain_calls_outputs.
          rewrite decide_True by reflexivity. simpl in *.
          destruct Hfit as [-> | ->]; right; exists e; auto. }
      assert (Hs : (∃ o, i = Settle k o) ∨ (∀ o, i ≠ Settle k o)).
      { destruct i as [|k' o|k'| |r]; try (right; congruence).
        destruct (decide (k' = k)) as [-> | Hne];
          [left; eauto | right; congruence]. }
      destruct Hs as [(o & ->) | Hs].
      { simpl in *. rewrite settle_effect in *. rewrite Hk0 in *.
        destruct c0 as [| | | |e|r], o as [|e'];
          try (rewrite Hk0 in Hk; injection Hk as <-; exact Hfit);
          simpl in *;
          rewrite list_lookup_insert_eq in Hk by exact Hlt; injection Hk as <-;
          simpl; auto. }
      destruct (foreign_step cls i this k Hlt) as (Hsame & Hcalls).
      * exact Hs.
      * exact Hm.
      * rewrite Hsame, Hk0 in Hk. injection Hk as <-. rewrite Hcalls.
        exact Hfit.
    + pose proof (base_step_length i this) as Hlen.
      assert (Hklt : k < length (chains (exec (base_step cls i) this)))
        by (apply lookup_lt_is_Some; eauto).
      destruct (decide (i = Connect)) as [-> | Hne]; [|lia].
      assert (k = length (chains this)) as -> by lia.
      simpl in *. unfold connectedCallback in *. unfold_monad. simpl in *.
      rewrite lookup_app_r, Nat.sub_diag in Hk by lia. injection Hk as <-.
      rewrite chain_calls_app, chain_calls_lifecycle, (Hnil _ (le_n _)).
      rewrite decide_True by reflexivity. reflexivity.
  - intros k Hk. pose proof (base_step_length i this) as Hlen.
    rewrite unborn_step.
    + apply Hnil. lia.
    + lia.
    + intros ->. rewrite decide_True in Hlen by reflexivity. lia.
Qed.
End LifecycleCalls.

(** X3. From the constructor on, whatever happens: there is one promise
    chain per connection, and each has called [pre] exactly once, first;
    [init] at most once, after a fulfilled [pre] and its render; and
    [setupError] at most once, last. In particular a second connection calls
    [pre] (and later [init]) again. Nothing is called on behalf of a
    connection that has not happened. *)
Theorem hooks_run_once_per_connection {S : Type} (cls : BaseMethods S)
    (element : Element.t) (s : S) (ins : list base_input) :
  let this := base_run cls ins (Base_constructor element s) in
  length (chains this) = connections ins
  ∧ (∀ k c, chains this !! k = Some c → calls_fit c (chain_calls k (log this)))
  ∧ (∀ k, connections ins ≤ k → chain_calls k (log this) = []).
Proof.
  intros this.
  assert (H : ∀ (ins : list base_input) (w : Base S),
             ((∀ k c, chains w !! k = Some c → calls_fit c (chain_calls k (log w)))
              ∧ (∀ k, length (chains w) ≤ k → chain_calls k (log w) = [])) →
             length (chains (base_run cls ins w))
             = length (chains w) + connections ins
             ∧ (∀ k c, chains (base_run cls ins w) !! k = Some c →
                       calls_fit c (chain_calls k (log (base_run cls ins w))))
             ∧ (∀ k, length (chains (base_run cls ins w)) ≤ k →
                     chain_calls k (log (base_run cls ins w)) = [])).
  { clear. induction ins as [|i ins IH]; intros w Hw.
    - simpl. unfold connections. simpl. split; [lia | exact Hw].
    - simpl. destruct (IH _ (calls_fit_step cls i w Hw)) as (Hlen & Hrest).
      split; [|exact Hrest]. rewrite Hlen, base_step_length.
      unfold connections. simpl. destruct i; simpl; lia. }
  destruct (H ins (Base_constructor element s)) as (Hlen & Hfit & Hnil).
  - simpl. split; [intros k c Hk; discriminate Hk | reflexivity].
  - fold this in Hlen, Hfit, Hnil. simpl in Hlen.
    split; [exact Hlen|]. split; [exact Hfit|].
    intros k Hk. apply Hnil. lia.
Qed.

Lemma chain_calls_method_call (k : nat) (m : method_call) (os : list output) :
  chain_calls k (call m :: map out os) = [].
Proof. exact (chain_calls_outputs k os). Qed.

Section NoFalseAlarm.
Context {S : Type} (cls : BaseMethods S).
Hypothesis template_returns : ∀ this, ∃ t, (template cls this).2 = Normal t.

Lemma render_returns (this : Base S) : (render cls this).2 = Normal tt.
Proof.
  destruct (___CAN_RENDER___ this) eqn:Hf.
  - rewrite (render_on cls this Hf).
    destruct (template_returns this) as (t & ->). reflexivity.
  - rewrite (render_off cls this Hf). reflexivity.
Qed.

Lemma calm_step (i : base_input) (this : Base S) :
  match i with Settle _ (Rejected _) => False | _ => True end →
  (∀ k e, chains this !! k ≠ Some (CatchQueued e))
  ∧ (∀ k r, chains this !! k = Some (Settled r) → r = Normal tt)
  ∧ (∀ k e, c_setupError e ∉ chain_calls k (log this)) →
  (∀ k e, chains (exec (base_step cls i) this) !! k ≠ Some (CatchQueued e))
  ∧ (∀ k r, chains (exec (base_step cls i) this) !! k = Some (Settled r) →
            r = Normal tt)
  ∧ (∀ k e, c_setupError e ∉ chain_calls k (log (exec (base_step cls i) this))).
Proof.
  intros Hi (Hc & Hs & Hl). destruct i as [|k o|k| |r]; simpl.
  - unfold connectedCallback. unfold_monad. simpl. repeat split.
    + intros k e Hk. apply lookup_app_Some in Hk as [Hk | [_ Hk]].
      * exact (Hc k e Hk).
      * destruct (k - length (chains this)) as [|n]; simpl in Hk;
          [discriminate Hk | destruct n; discriminate Hk].
    + intros k r Hk. apply lookup_app_Some in Hk as [Hk | [_ Hk]].
      * exact (Hs k r Hk).
      * destruct (k - length (chains this)) as [|n]; simpl in Hk;
          [discriminate Hk | destruct n; discriminate Hk].
    + intros k e. rewrite chain_calls_app, chain_calls_lifecycle.
      rewrite app_nil_r. apply not_elem_of_app. split; [apply Hl|].
      destruct (decide _); [|apply not_elem_of_nil].
      intros Hin. apply list_elem_of_singleton in Hin. discriminate Hin.
  - rewrite settle_effect. destruct o as [|e]; [|destruct Hi].
    destruct (chains this !! k) as [[| | | |e'|r]|] eqn:Hk; simpl;
      repeat split; auto; intros k' x Hk';
      apply list_lookup_insert_Some in Hk' as [(_ & Hk' & _) | (_ & Hk')];
      try discriminate Hk'; try (injection Hk' as <-; reflexivity);
      eauto; exact (Hc k' x Hk').
  - destruct (chains this !! k) as [[| | | |e|r]|] eqn:Hk;
      try (rewrite microtask_idle by (rewrite Hk; congruence); auto).
    + rewrite (microtask_then1_eq cls this k Hk).
      rewrite render_returns.
      destruct (render_effect cls (with_CAN_RENDER true this))
        as (l & Hr & Hcalls & _).
      rewrite Hr. simpl. repeat split.
      * intros k' x Hk'.
        apply list_lookup_insert_Some in Hk' as [(_ & Hk' & _) | (_ & Hk')];
          [discriminate Hk' | exact (Hc k' x Hk')].
      * intros k' x Hk'.
        apply list_lookup_insert_Some in Hk' as [(_ & Hk' & _) | (_ & Hk')];
          [discriminate Hk' | exact (Hs k' x Hk')].
      * intros k' x. rewrite chain_calls_app, Hcalls, app_nil_r. apply Hl.
    + rewrite microtask_then2 by exact Hk. simpl. repeat split.
      * intros k' x Hk'.
        apply list_lookup_insert_Some in Hk' as [(_ & Hk' & _) | (_ & Hk')];
          [discriminate Hk' | exact (Hc k' x Hk')].
      * intros k' x Hk'.
        apply list_lookup_insert_Some in Hk' as [(_ & Hk' & _) | (_ & Hk')];
          [discriminate Hk' | exact (Hs k' x Hk')].
      * intros k' x. rewrite chain_calls_app, chain_calls_lifecycle.
        rewrite app_nil_r. apply not_elem_of_app. split; [apply Hl|].
        destruct (decide _); [|apply not_elem_of_nil].
        intros Hin. apply list_elem_of_singleton in Hin. discriminate Hin.
    + destruct (Hc k e Hk).
  - destruct (render_effect cls this) as (l & Hr & Hcalls & _). unfold exec.
    rewrite Hr. simpl. repeat split; auto.
    intros k x. rewrite chain_calls_app, Hcalls, app_nil_r. apply Hl.
  - unfold_monad. simpl. auto.
Qed.

Lemma calm_run (ins : list base_input) (this : Base S) :
  no_hook_rejected ins = true →
  (∀ k e, chains this !! k ≠ Some (CatchQueued e))
  ∧ (∀ k r, chains this !! k = Some (Settled r) → r = Normal tt)
  ∧ (∀ k e, c_setupError e ∉ chain_calls k (log this)) →
  (∀ k e, chains (base_run cls ins this) !! k ≠ Some (CatchQueued e))
  ∧ (∀ k r, chains (base_run cls ins this) !! k = Some (Settled r) →
            r = Normal tt)
  ∧ (∀ k e, c_setupError e ∉ chain_calls k (log (base_run cls ins this))).
Proof.
  revert this. induction ins as [|i ins IH]; intros this Hins Hinv;
    [exact Hinv|].
  simpl in Hins. apply andb_true_iff in Hins as [Hi Hins]. simpl.
  apply (IH _ Hins). apply calm_step; [|exact Hinv].
  destruct i as [|k [|e]|k| |r]; try exact I. discriminate Hi.
Qed.
End NoFalseAlarm.

(** X4. When [template] never throws (the default one does not) and no
    hook's promise is rejected, [setupError] is never called, no rejection
    is ever pending, and every chain that settles is fulfilled: the error
    handler fires on errors only. *)
Theorem setupError_needs_an_error {S : Type} (cls : BaseMethods S)
    (element : Element.t) (s : S) (ins : list base_input) :
  (∀ this, ∃ t, (template cls this).2 = Normal t) →
  no_hook_rejected ins = true →
  let this := base_run cls ins (Base_constructor element s) in
  (∀ k e, c_setupError e ∉ chain_calls k (log this))
  ∧ (∀ k e, chains this !! k ≠ Some (CatchQueued e))
  ∧ (∀ k r, chains this !! k = Some (Settled r) → r = Normal tt).
Proof.
  intros Ht Hins this.
  destruct (calm_run cls Ht ins (Base_constructor element s) Hins)
    as (Hc & Hs & Hl).
  - simpl. repeat split.
    + intros k e Hk. discriminate Hk.
    + intros k r Hk. discriminate Hk.
    + intros k e. apply not_elem_of_nil.
  - auto.
Qed.

Lemma setupError_needs_an_error_witness :
  let this := base_run Base_methods
                [Connect; Settle 0 Fulfilled; Microtask 0; Microtask 0;
                 Settle 0 Fulfilled; Microtask 0; Connect; CallRender]
                (Base_constructor the_component tt) in
  (∀ k e, c_setupError e ∉ chain_calls k (log this))
  ∧ (∀ k e, chains this !! k ≠ Some (CatchQueued e))
  ∧ (∀ k r, chains this !! k = Some (Settled r) → r = Normal tt).
Proof.
  apply (setupError_needs_an_error Base_methods the_component tt).
  - intros this. exists (html [""] []). reflexivity.
  - reflexivity.
Defined.

(** X5. When [template] throws [e] in the first reaction of a connection,
    the flag has already been set and stays set, nothing is handed to
    lit-html, [init] is not called, and the next reaction of the chain calls
    [setupError(e)]: a failing first render is reported like a rejected hook,
    but leaves rendering enabled. *)
Theorem throwing_template_reaches_setupError {S : Type} (cls : BaseMethods S)
    (this : Base S) (k : nat) (e : exn) :
  chains this !! k = Some Then1Queued →
  (template cls (with_CAN_RENDER true this)).2 = Throw e →
  let reacted := exec (microtask cls k) this in
  let caught := exec (microtask cls k) reacted in
  ___CAN_RENDER___ reacted = true
  ∧ renders (log reacted) = renders (log this)
  ∧ chains reacted !! k = Some (CatchQueued e)
  ∧ chain_calls k (log reacted) = chain_calls k (log this)
  ∧ ___CAN_RENDER___ caught = true
  ∧ chain_calls k (log caught) = chain_calls k (log this) ++ [c_setupError e]
  ∧ chains caught !! k = Some (Settled (setupError cls reacted e).2).
Proof.
  intros Hk Ht reacted caught.
  assert (Hlt : k < length (chains this)) by (apply lookup_lt_is_Some; eauto).
  assert (Hr : reacted
               = with_chains (<[k := CatchQueued e]> (chains this))
                   (with_log
                      (log this ++ call c_template
                         :: map out (template cls (with_CAN_RENDER true this)).1)
                      (with_CAN_RENDER true this))).
  { unfold reacted. rewrite (microtask_then1_eq cls this k Hk).
    rewrite (render_on cls (with_CAN_RENDER true this) eq_refl), Ht.
    reflexivity. }
  assert (Hkr : chains reacted !! k = Some (CatchQueued e)).
  { rewrite Hr. simpl. apply list_lookup_insert_eq, Hlt. }
  assert (Hcalls : chain_calls k (log reacted) = chain_calls k (log this)).
  { rewrite Hr. simpl. rewrite chain_calls_app, chain_calls_method_call.
    apply app_nil_r. }
  split; [rewrite Hr; reflexivity|].
  split; [rewrite Hr; simpl; rewrite renders_app, renders_method_call; lia|].
  split; [exact Hkr|]. split; [exact Hcalls|].
  unfold caught. rewrite (microtask_catch cls reacted k e Hkr). simpl.
  split; [rewrite Hr; reflexivity|]. split.
  - rewrite chain_calls_app, chain_calls_lifecycle, chain_calls_outputs, Hcalls.
    rewrite decide_True by reflexivity. reflexivity.
  - apply list_lookup_insert_eq. rewrite Hr. simpl. rewrite length_insert.
    exact Hlt.
Qed.

Lemma throwing_template_reaches_setupError_witness :
  let e := Thrown (VString "no data") in
  let this := base_run (throwing_template e) [Connect; Settle 0 Fulfilled]
                (Base_constructor the_component tt) in
  let reacted := exec (microtask (throwing_template e) 0) this in
  let caught := exec (microtask (throwing_template e) 0) reacted in
  ___CAN_RENDER___ reacted = true
  ∧ renders (log reacted) = renders (log this)
  ∧ chains reacted !! 0 = Some (CatchQueued e)
  ∧ chain_calls 0 (log reacted) = chain_calls 0 (log this)
  ∧ ___CAN_RENDER___ caught = true
  ∧ chain_calls 0 (log caught) = chain_calls 0 (log this) ++ [c_setupError e]
  ∧ chains caught !! 0
    = Some (Settled (setupError (throwing_template e) reacted e).2).
Proof.
  exact (throwing_template_reaches_setupError
           (throwing_template (Thrown (VString "no data")))
           (base_run (throwing_template (Thrown (VString "no data")))
              [Connect; Settle 0 Fulfilled] (Base_constructor the_component tt))
           0 (Thrown (VString "no data")) eq_refl eq_refl).
Defined.

(** ** More on [FormBase] *)

Section FormMore.
Variable cls : FormMethods.

Lemma qualifies_spec (component : Element.t) (evt : Event.t) :
  qualifies component evt = true →
  ∃ target,
    Event.target evt = Some target
    ∧ (Event.type evt = "change" ∨ Event.type evt = "input")
    ∧ Element.id target ≠ Element.id component
    ∧ Element.name target ≠ "".
Proof.
  unfold qualifies. intros Hq. apply andb_true_iff in Hq as [Hty Hq].
  destruct (Event.target evt) as [target|]; [|discriminate Hq].
  exists target. apply negb_true_iff, orb_false_iff in Hq as [Hid Hname].
  split; [reflexivity|]. split; [|split].
  - apply orb_true_iff in Hty as [Hty | Hty]; apply String.eqb_eq in Hty; auto.
  - apply bool_decide_eq_false in Hid. exact Hid.
  - simpl in Hname. apply negb_false_iff, negb_true_iff in Hname.
    apply String.eqb_neq in Hname. exact Hname.
Qed.

(** Before the first connection nothing enables rendering. *)
Lemma unconnected_step (i : form_input) (this : FormBase) :
  i ≠ Inherited Connect →
  ___CAN_RENDER___ this = false ∧ renders (log this) = 0 ∧ chains this = [] →
  ___CAN_RENDER___ (exec (form_step cls i) this) = false
  ∧ renders (log (exec (form_step cls i) this)) = 0
  ∧ chains (exec (form_step cls i) this) = [].
Proof.
  intros Hi (Hf & Hr & Hc). destruct i as [i|v|evt|ms]; simpl.
  - destruct i as [|k o|k| |r]; simpl.
    + destruct Hi. reflexivity.
    + rewrite settle_effect, Hc. destruct o; simpl; auto.
    + rewrite microtask_idle by (rewrite Hc; destruct k; discriminate). auto.
    + rewrite render_disabled by exact Hf. auto.
    + unfold_monad. simpl. auto.
  - destruct (String.eqb_spec (typeof v) "object") as [Hv|Hv].
    + destruct (set_data_effect cls this v Hv) as (l & Hl & _ & _ & Hoff & _).
      unfold exec. rewrite Hl, (Hoff Hf), app_nil_r. simpl. auto.
    + unfold exec. rewrite (set_data_rejected cls this v Hv). auto.
  - destruct (listener_frame evt this) as (-> & -> & -> & _). auto.
  - destruct (elapse_frame cls ms this) as (l & -> & Hl & _ & -> & -> & _).
    rewrite renders_app, Hr, Hl. auto.
Qed.

Lemma unconnected_run (ins : list form_input) (this : FormBase) :
  never_connected ins = true →
  ___CAN_RENDER___ this = false ∧ renders (log this) = 0 ∧ chains this = [] →
  ___CAN_RENDER___ (form_run cls ins this) = false
  ∧ renders (log (form_run cls ins this)) = 0
  ∧ chains (form_run cls ins this) = [].
Proof.
  revert this. induction ins as [|i ins IH]; intros this Hins Hinv;
    [exact Hinv|].
  simpl in Hins. apply andb_true_iff in Hins as [Hi Hins]. simpl.
  apply (IH _ Hins), unconnected_step; [|exact Hinv].
  intros ->. discriminate Hi.
Qed.

(** Without an assignment of [null] the backing reference stays an
    object. *)
Lemma object_data_step (i : form_input) (this : FormBase) :
  i ≠ Assign VNull →
  (∃ l, _data (sub this) = VObject l) →
  ∃ l, _data (sub (exec (form_step cls i) this)) = VObject l.
Proof.
  intros Hi Hd. destruct i as [i|v|evt|ms]; simpl.
  - rewrite base_step_sub. exact Hd.
  - destruct (String.eqb_spec (typeof v) "object") as [Hv|Hv].
    + destruct (set_data_effect cls this v Hv) as (l & Hl & _).
      unfold exec. rewrite Hl. simpl.
      destruct v; try discriminate Hv; [destruct Hi; reflexivity | eauto].
    + unfold exec. rewrite (set_data_rejected cls this v Hv). exact Hd.
  - destruct (listener_frame evt this) as (_ & _ & _ & -> & _). exact Hd.
  - destruct (elapse_frame cls ms this) as (l & _ & _ & _ & _ & _ & -> & _).
    exact Hd.
Qed.

Lemma object_data_run (ins : list form_input) (this : FormBase) :
  no_null_assigned ins = true →
  (∃ l, _data (sub this) = VObject l) →
  ∃ l, _data (sub (form_run cls ins this)) = VObject l.
Proof.
  revert this. induction ins as [|i ins IH]; intros this Hins Hd; [exact Hd|].
  simpl in Hins. apply andb_true_iff in Hins as [Hi Hins]. simpl.
  apply (IH _ Hins), object_data_step; [|exact Hd].
  intros ->. discriminate Hi.
Qed.
End FormMore.

(** X6. A [FormBase] that is never connected never renders, whatever is
    assigned to [data], whatever events reach it, however often [render()]
    is called and however much time passes: the flag stays false and
    lit-html's [render] is not reached. *)
Theorem unconnected_form_never_renders (cls : FormMethods) (element : Element.t)
    (h : gmap loc (gmap string JSValue)) (ins : list form_input) :
  never_connected ins = true →
  ___CAN_RENDER___ (form_run cls ins (FormBase_constructor element h)) = false
  ∧ renders (log (form_run cls ins (FormBase_constructor element h))) = 0.
Proof.
  intros Hins.
  destruct (unconnected_run cls ins (FormBase_constructor element h) Hins)
    as (Hf & Hr & _); auto.
Qed.

Lemma unconnected_form_never_renders_witness :
  let ins := [Assign (VObject 3%positive); Inherited CallRender;
              Dispatch (input_event (title_input "Hello")); Elapse 20;
              Inherited (Settle 0 Fulfilled); Inherited (Microtask 0)] in
  ___CAN_RENDER___ (form_run FormBase_methods ins fresh_form) = false
  ∧ renders (log (form_run FormBase_methods ins fresh_form)) = 0.
Proof.
  exact (unconnected_form_never_renders FormBase_methods the_component ∅
           [Assign (VObject 3%positive); Inherited CallRender;
            Dispatch (input_event (title_input "Hello")); Elapse 20;
            Inherited (Settle 0 Fulfilled); Inherited (Microtask 0)]
           eq_refl).
Defined.

(** X7. What was assigned to [data] before the connection is not lost: the
    first reaction of the first connection leaves the subclass state as it
    was, sets the flag and calls [template] on an instance that holds that
    state; that call's result is the first thing ever handed to lit-html. *)
Theorem first_render_sees_assigned_data (cls : FormMethods)
    (element : Element.t) (h : gmap loc (gmap string JSValue))
    (ins : list form_input) :
  never_connected ins = true →
  let before := form_run cls ins (FormBase_constructor element h) in
  let after :=
    form_run cls
      [Inherited Connect; Inherited (Settle 0 Fulfilled); Inherited (Microtask 0)]
      before in
  renders (log before) = 0
  ∧ sub after = sub before
  ∧ ___CAN_RENDER___ after = true
  ∧ ∃ at_render : FormBase,
      sub at_render = sub before
      ∧ ___CAN_RENDER___ at_render = true
      ∧ log after
        = log before
          ++ lifecycle 0 c_pre
          :: call c_template :: map out (template (inherited cls) at_render).1
          ++ match (template (inherited cls) at_render).2 with
             | Normal t =>
                 [lit_render t
                    match shadow before with
                    | Some r => ShadowRoot r
                    | None => HostElement (Element.id element)
                    end]
             | Throw _ => []
             end.
Proof.
  intros Hins before after.
  destruct (unconnected_run cls ins (FormBase_constructor element h) Hins)
    as (Hf & Hr & Hc); [simpl; auto|].
  fold before in Hf, Hr, Hc.
  assert (Hself : self before = element).
  { unfold before. generalize (FormBase_constructor element h),
      (eq_refl : self (FormBase_constructor element h) = element).
    clear. induction ins as [|i ins IH]; intros w Hw; [exact Hw|].
    simpl. apply IH. rewrite <- Hw. clear.
    destruct i as [i|v|evt|ms]; simpl.
    - destruct i as [|k o|k| |r]; simpl; try reflexivity.
      + rewrite settle_effect.
        destruct (chains w !! k) as [[| | | |e'|r]|], o; reflexivity.
      + destruct (chains w !! k) as [[| | | |e|r]|] eqn:Hk;
          try (rewrite microtask_idle by (rewrite Hk; congruence); reflexivity).
        * destruct (microtask_then1 (inherited cls) w k Hk) as (l & -> & _).
          reflexivity.
        * rewrite microtask_then2 by exact Hk. reflexivity.
        * rewrite (microtask_catch _ _ _ e) by exact Hk. reflexivity.
      + destruct (render_effect (inherited cls) w) as (l & Hl & _).
        unfold exec. rewrite Hl. reflexivity.
    - destruct (String.eqb_spec (typeof v) "object") as [Hv|Hv].
      + destruct (set_data_effect cls w v Hv) as (l & Hl & _).
        unfold exec. rewrite Hl. reflexivity.
      + unfold exec. rewrite (set_data_rejected cls w v Hv). reflexivity.
    - unfold listener, handler, get_data, setTimeout, put_property.
      unfold_monad. simpl.
      destruct (_ || _); [|reflexivity].
      destruct (Event.target evt); [|reflexivity].
      destruct (_ || _); [reflexivity|].
      destruct (String.eqb _ _), (_data (sub w)); simpl;
        repeat match goal with
               | |- context [inherits_setter ?o ?k] =>
                   destruct (inherits_setter o k)
               | |- context [String.eqb ?k "__proto__"] =>
                   destruct (String.eqb k "__proto__")
               end; reflexivity.
    - unfold elapse. unfold_monad. simpl.
      assert (Hfd : ∀ fuel limit w', self (fire_due cls fuel limit w').1 = self w').
      { clear. induction fuel as [|fuel IH]; intros limit w'; [reflexivity|].
        simpl. unfold_monad. simpl.
        destruct (earliest (timers (sub w'))) as [t|]; [|reflexivity].
        destruct (deadline t <=? limit); [|reflexivity]. simpl.
        unfold timeout_callback, call_handleChange, clearTimeout.
        unfold_monad. simpl. rewrite IH.
        destruct (debounceTimeout (sub w')); reflexivity. }
      specialize (Hfd (length (timers (sub w))) (now (sub w) + ms) w).
      destruct (fire_due cls _ _ w) as [w' [[]|e]]; simpl in *; exact Hfd. }
  split; [exact Hr|].
  set (queued := with_chains [Then1Queued]
                   (with_log (log before ++ [lifecycle 0 c_pre]) before)).
  assert (Hq : form_run cls [Inherited Connect; Inherited (Settle 0 Fulfilled)]
                 before = queued).
  { change (form_run cls [Inherited Connect; Inherited (Settle 0 Fulfilled)]
              before)
      with (exec (settle 0 Fulfilled) (exec connectedCallback before)).
    rewrite settle_effect. unfold connectedCallback. unfold_monad. simpl.
    rewrite Hc. reflexivity. }
  assert (Hafter : after = exec (microtask (inherited cls) 0) queued).
  { unfold after. rewrite <- Hq. reflexivity. }
  rewrite Hafter.
  rewrite (microtask_then1_eq (inherited cls) queued 0 eq_refl).
  rewrite (render_on (inherited cls) (with_CAN_RENDER true queued) eq_refl).
  split; [|split].
  - destruct (template _ _).2; reflexivity.
  - destruct (template _ _).2; reflexivity.
  - exists (with_CAN_RENDER true queued). split; [reflexivity|].
    split; [reflexivity|]. rewrite <- Hself.
    destruct (template _ _).2; simpl; rewrite <- !app_assoc; simpl;
      rewrite ?app_nil_r; reflexivity.
Qed.

Lemma first_render_sees_assigned_data_witness :
  let before := form_run FormBase_methods [Assign (VObject 3%positive)]
                  fresh_form in
  let after :=
    form_run FormBase_methods
      [Inherited Connect; Inherited (Settle 0 Fulfilled); Inherited (Microtask 0)]
      before in
  renders (log before) = 0 ∧ sub after = sub before
  ∧ ___CAN_RENDER___ after = true.
Proof.
  pose proof (first_render_sees_assigned_data FormBase_methods the_component ∅
                [Assign (VObject 3%positive)] eq_refl) as (H1 & H2 & H3 & _).
  exact (conj H1 (conj H2 H3)).
Defined.

(** X8. From the constructor on, the backing reference is always a value
    whose [typeof] is ["object"]: an object reference or [null]; no string,
    number, function or [undefined] ever gets there. It is an object
    reference for as long as [null] itself has not been assigned. *)
Theorem data_reference_is_object_unless_null_assigned (cls : FormMethods)
    (element : Element.t) (h : gmap loc (gmap string JSValue))
    (ins : list form_input) :
  let this := form_run cls ins (FormBase_constructor element h) in
  typeof (_data (sub this)) = "object"
  ∧ (_data (sub this) = VNull ∨ ∃ l, _data (sub this) = VObject l)
  ∧ (no_null_assigned ins = true → ∃ l, _data (sub this) = VObject l).
Proof.
  intros this.
  pose proof (data_is_object_or_null cls ins element h) as Hd.
  fold this in Hd. split; [|split; [exact Hd|]].
  - destruct Hd as [-> | (l & ->)]; reflexivity.
  - intros Hins. apply (object_data_run cls ins _ Hins). simpl. eauto.
Qed.

Lemma data_reference_is_object_unless_null_assigned_witness :
  ∃ l, _data (sub (form_run FormBase_methods
                     [Assign (VString "x"); Assign (VNumber (Dyadic 3 0)); Assign VUndefined;
                      Assign (VFunction 9%positive);
                      Dispatch (input_event (title_input "Hello"))]
                     fresh_form))
       = VObject l.
Proof.
  exact (proj2 (proj2 (data_reference_is_object_unless_null_assigned
                         FormBase_methods the_component ∅
                         [Assign (VString "x"); Assign (VNumber (Dyadic 3 0));
                          Assign VUndefined; Assign (VFunction 9%positive);
                          Dispatch (input_event (title_input "Hello"))]))
           eq_refl).
Defined.

(** X9. While the backing reference is [null], an event the listener would
    store makes it throw a [TypeError] instead; nothing is stored, no timer
    is armed, and the run goes on as if the event had not happened, so
    [handleChange] is never called for it. *)
Theorem null_data_drops_events (cls : FormMethods) (this : FormBase)
    (evt : Event.t) (ins : list form_input) :
  _data (sub this) = VNull →
  qualifies (self this) evt = true →
  listener evt this = (this, Throw (TypeError "Cannot set properties"))
  ∧ form_run cls (Dispatch evt :: ins) this = form_run cls ins this.
Proof.
  intros Hd Hq.
  assert (Hl : listener evt this
               = (this, Throw (TypeError "Cannot set properties"))).
  { destruct (qualifies_spec _ _ Hq) as (target & Htg & Hty & Hid & Hname).
    unfold listener, handler, get_data, put_property. unfold_monad. simpl.
    rewrite Htg.
    assert (Hlisten : String.eqb (Event.type evt) "change"
                      || String.eqb (Event.type evt) "input" = true)
      by (destruct Hty as [-> | ->]; reflexivity).
    rewrite Hlisten, bool_decide_eq_false_2 by exact Hid.
    destruct (String.eqb_spec (Element.name target) ""); [contradiction|].
    destruct this as [el fl sh ch lg [d db hp ts nw nx]]. simpl in *. subst d.
    destruct (String.eqb _ "checkbox"); reflexivity. }
  split; [exact Hl|]. simpl. unfold exec. rewrite Hl. reflexivity.
Qed.

Lemma null_data_drops_events_witness :
  let this := exec (set_data FormBase_methods VNull) fresh_form in
  listener (input_event (title_input "Hello")) this
  = (this, Throw (TypeError "Cannot set properties"))
  ∧ form_run FormBase_methods
      [Dispatch (input_event (title_input "Hello")); Elapse 10] this
    = form_run FormBase_methods [Elapse 10] this.
Proof.
  exact (null_data_drops_events FormBase_methods
           (exec (set_data FormBase_methods VNull) fresh_form)
           (input_event (title_input "Hello")) [Elapse 10] eq_refl eq_refl).
Defined.

(** ** More on the timers *)

Section Timers.
Variable cls : FormMethods.

Lemma fire_due_returns (fuel limit : nat) (this : FormBase) :
  (fire_due cls fuel limit this).2 = Normal tt.
Proof.
  revert this. induction fuel as [|fuel IH]; intros this; [reflexivity|].
  simpl. unfold_monad. simpl.
  destruct (earliest (timers (sub this))) as [t|]; [|reflexivity].
  destruct (deadline t <=? limit); [|reflexivity]. simpl. apply IH.
Qed.

(** [elapse] is the firing of the due timers followed by the move of the
    clock. *)
Lemma elapse_eq (ms : nat) (this : FormBase) :
  exec (elapse cls ms) this
  = with_sub
      (with_now (now (sub this) + ms)
         (sub (exec (fire_due cls (length (timers (sub this)))
                       (now (sub this) + ms)) this)))
      (exec (fire_due cls (length (timers (sub this))) (now (sub this) + ms))
         this).
Proof.
  unfold elapse. unfold_monad. simpl.
  pose proof (fire_due_returns (length (timers (sub this)))
                (now (sub this) + ms) this) as Hr.
  destruct (fire_due cls _ _ this) as [w r]. simpl in *. subst r. reflexivity.
Qed.





End Timers.

(** X12. An event on its own is reported once and on time: with no timer
    pending, a stored event followed by less than 10 ms of quiet has not
    reached [handleChange] and its timer is still pending; followed by 10 ms
    or more it has reached [handleChange] exactly once, and no timer is
    left. *)
Theorem isolated_event_is_reported_once (cls : FormMethods) (this : FormBase)
    (l : loc) (evt : Event.t) (ms : nat) :
  timers (sub this) = [] →
  _data (sub this) = VObject l →
  qualifies (self this) evt = true →
  let later := form_run cls [Dispatch evt; Elapse ms] this in
  (ms < 10 →
   handleChange_calls (log later) = handleChange_calls (log this)
   ∧ map captured (timers (sub later)) = [evt])
  ∧ (10 ≤ ms →
     handleChange_calls (log later) = handleChange_calls (log this) ++ [evt]
     ∧ timers (sub later) = []).
Proof.
  intros Hts Hd Hq later.
  destruct (listener_qualifying evt this l Hq Hd) as (h & Hl).
  assert (Hlater : later = exec (elapse cls ms) (exec (listener evt) this))
    by reflexivity.
  rewrite Hlater, elapse_eq, Hl, Hts. cbn -[Nat.add fire_due handleChange_calls].
  set (armed_one := with_sub _ this).
  split.
  - intros Hms.
    assert (Hfire : exec (fire_due cls 1 (now (sub this) + ms)) armed_one
                    = armed_one).
    { unfold exec. simpl. unfold_monad. simpl.
      assert (Hdue : (now (sub this) + 10 <=? now (sub this) + ms) = false)
        by (apply Nat.leb_gt; lia).
      rewrite Hdue. reflexivity. }
    rewrite Hfire. split; reflexivity.
  - intros Hms.
    destruct (fire_due_step cls 0 (now (sub this) + ms) armed_one
                (mkTimer (next_handle (sub this)) (now (sub this) + 10) evt)
                [] (next_handle (sub this)))
      as (w & Hfire & Hw & _ & Hcalls); try reflexivity.
    + constructor.
    + simpl. lia.
    + simpl. apply not_elem_of_nil.
    + rewrite Hfire. change (exec (fire_due cls 0 (now (sub this) + ms)) w)
        with w.
      split; [exact Hcalls | exact Hw].
Qed.

Lemma isolated_event_is_reported_once_witness :
  let later ms :=
    form_run FormBase_methods
      [Dispatch (input_event (title_input "Hello")); Elapse ms] fresh_form in
  handleChange_calls (log (later 9)) = handleChange_calls (log fresh_form)
  ∧ handleChange_calls (log (later 10))
    = handleChange_calls (log fresh_form) ++ [input_event (title_input "Hello")].
Proof.
  split.
  - apply (proj1 (isolated_event_is_reported_once FormBase_methods fresh_form
                    1%positive (input_event (title_input "Hello")) 9
                    eq_refl eq_refl eq_refl)).
    lia.
  - apply (proj2 (isolated_event_is_reported_once FormBase_methods fresh_form
                    1%positive (input_event (title_input "Hello")) 10
                    eq_refl eq_refl eq_refl)).
    lia.
Defined.

(** X13. What the timer code does with a burst, for every class: when two
    or more stored events arrive with no timer pending and no time passing
    between them, and then at least 10 ms pass, [handleChange] is called once
    for each event except the last, in the order of arrival; the last event
    is the one that is never reported. *)
Theorem burst_reports_all_but_last_event (cls : FormMethods) (this : FormBase)
    (l : loc) (first : Event.t) (evts : list Event.t) (last : Event.t)
    (ms : nat) :
  timers (sub this) = [] →
  _data (sub this) = VObject l →
  forallb (qualifies (self this)) (first :: evts ++ [last]) = true →
  10 ≤ ms →
  handleChange_calls
    (log (form_run cls
            (map Dispatch (first :: evts ++ [last]) ++ [Elapse ms]) this))
  = handleChange_calls (log this) ++ first :: evts.
Proof. apply burst_calls_all_but_last. Qed.

Lemma burst_reports_all_but_last_event_witness :
  handleChange_calls
    (log (form_run FormBase_methods
            (map Dispatch
               (input_event (title_input "H")
                :: [input_event (title_input "He")]
                ++ [input_event (title_input "Hel")])
             ++ [Elapse 10])
            fresh_form))
  = handleChange_calls (log fresh_form)
    ++ [input_event (title_input "H"); input_event (title_input "He")].
Proof.
  apply (burst_reports_all_but_last_event FormBase_methods fresh_form
           1%positive (input_event (title_input "H"))
           [input_event (title_input "He")] (input_event (title_input "Hel")) 10);
    [reflexivity | reflexivity | reflexivity | lia].
Defined.

(** ** What [handleChange] is called with *)

Section Reports.
Variable cls : FormMethods.












End Reports.

